(** * rabbitmq-lite: a shallow embedding of the transport client, the
    connection manager, the publisher base class and the consumer retry
    policy, with the properties of the specification proved or refuted
    against it.

    Layout:
    - [Js]                 the few JavaScript notions the code relies on
                           (optional object keys, object spread, template
                           literals, [String.prototype.includes], errors);
    - [RabbitMQClient]     lib/RabbitMQClient.ts (publish, sendToQueue, close);
    - [RabbitMQConnection] lib/RabbitMQConnection.ts (connect, startConsumers,
                           handleConnectionLost) as a step function over the
                           await points of the code;
    - [Publisher]          lib/Publisher.ts (the cached client getter);
    - [Consumer]           the consumer retry policy. *)

From Stdlib Require Import ZArith String List Bool Lia.
From stdpp Require Import base option list gmap strings.

Local Open Scope Z_scope.
Local Open Scope string_scope.
Local Open Scope list_scope.

(* ===================================================================== *)
(** ** JavaScript notions *)
(* ===================================================================== *)

Module Js.

(** A thrown value.  The code only ever looks at [error.message], which may
    be missing ([error.message?.includes(...)]). *)
Record Error := mkError { message : option string }.

(** [new Error(msg)] *)
Definition new_Error (msg : string) : Error := mkError (Some msg).

(** An optional key of an object type ([key?: T]): the key is not an own
    property ([Absent]), or it is one and holds a value or [undefined]
    ([Present None]). *)
Inductive Field (A : Type) : Type :=
| Absent
| Present (v : option A).
Arguments Absent {A}.
Arguments Present {A} v.

(** Property read [o.key]: [None] is [undefined]. *)
Definition read {A} (f : Field A) : option A :=
  match f with
  | Absent => None
  | Present v => v
  end.

(** [o.hasOwnProperty("key")] *)
Definition hasOwnProperty {A} (f : Field A) : bool :=
  match f with
  | Absent => false
  | Present _ => true
  end.

(** One key of the object spread [{ ...a, ...b }]: every own property of
    [b], also one holding [undefined], replaces that of [a]. *)
Definition over {A} (a b : Field A) : Field A :=
  match b with
  | Absent => a
  | Present _ => b
  end.

(** A string-typed value inside a template literal: [`${x}`]. *)
Definition template (x : option string) : string :=
  match x with
  | Some s => s
  | None => "undefined"
  end.

(** [hay.includes(needle)] *)
Fixpoint includes (needle hay : string) : bool :=
  String.prefix needle hay ||
  match hay with
  | EmptyString => false
  | String _ rest => includes needle rest
  end.

(** [error.message?.includes(needle)], as a condition *)
Definition message_includes (needle : string) (error : Error) : bool :=
  match message error with
  | Some msg => includes needle msg
  | None => false
  end.

(** Outcome of a call that may throw. *)
Inductive Result (A : Type) : Type :=
| Ok (a : A)
| Throw (e : Error).
Arguments Ok {A} a.
Arguments Throw {A} e.

End Js.
Import Js.

(* ===================================================================== *)
(** ** lib/RabbitMQClient.ts

    In the sources at hand the text of this class follows that of
    lib/Publisher.ts in one file. *)
(* ===================================================================== *)

Module RabbitMQClient.

(** Handles of the transport library's objects. *)
Definition Connection := nat.
Definition Channel := nat.

(** A callback registered with [onConnectionLost], by identity. *)
Definition Callback := nat.

Definition Buffer := list Byte.byte.

(** [Buffer.from(str)] *)
Definition Buffer_from (s : string) : Buffer := list_byte_of_string s.

Inductive ExchangeType := direct | fanout | topic.

(** A header value; [x-delay] holds [mergedOptions.delay], which is a
    number or [undefined]. *)
Inductive HeaderValue :=
| HUndefined
| HNum (n : Z)
| HStr (s : string)
| HBool (b : bool).

Abbreviation Headers := (gmap string HeaderValue).

(** [declare type Options] *)
Record Options := mkOptions {
  exchange : Field string;
  routingKey : Field string;
  persistent : Field bool;
  delay : Field Z;
  exchangeType : Field ExchangeType;
  headers : Field Headers;
}.

(** [{}] *)
Definition no_options : Options :=
  mkOptions Absent Absent Absent Absent Absent Absent.

(** [{ ...a, ...b }] on [Options] *)
Definition spread (a b : Options) : Options :=
  {| exchange := over (exchange a) (exchange b);
     routingKey := over (routingKey a) (routingKey b);
     persistent := over (persistent a) (persistent b);
     delay := over (delay a) (delay b);
     exchangeType := over (exchangeType a) (exchangeType b);
     headers := over (headers a) (headers b) |}.

(** [...h] inside an object literal, for [h : object | undefined]: spreading
    [undefined] adds no key. *)
Definition spread_headers (h : option Headers) : Headers :=
  match h with
  | Some m => m
  | None => ∅
  end.

(** A number-or-undefined stored as a header value. *)
Definition header_of_number (n : option Z) : HeaderValue :=
  match n with
  | Some d => HNum d
  | None => HUndefined
  end.

(** The calls made on the transport library (amqplib), as the code passes
    their arguments. *)
Inductive Call :=
| assertExchange (ch : Channel) (name type : string) (durable : bool)
                 (x_delayed_type : option ExchangeType)
| assertQueue (ch : Channel) (queue : string) (durable : bool)
| bindQueue (ch : Channel) (queue source : string) (pattern : option string)
| channel_publish (ch : Channel) (exchange : string)
                  (routingKey : option string) (content : Buffer)
                  (headers : Headers)
| channel_sendToQueue (ch : Channel) (queue : string) (content : Buffer)
                      (options : Options)
| channel_ack (ch : Channel) (deliveryTag : nat)
| channel_nack (ch : Channel) (deliveryTag : nat)
| channel_close (ch : Channel)
| connection_close (c : Connection).

(** The fields of one instance. *)
Record Instance := mkInstance {
  url : string;
  channel : option Channel;
  isConnected : bool;
  connectionLostCallback : option Callback;
}.

(** What a method of an instance can read and write: the instance, the
    class-level [RabbitMQClient.connection], and the transport, seen as the
    sequence of calls made on it so far.  A method is run from its call to
    its return; the "close" and "error" handlers that [connect()] registers
    on the connection and the channel are events of their own and not part
    of such a run (for the one that the closing of the connection sets off,
    see [RabbitMQConnectionMore.close]). *)
Record State := mkState {
  this : Instance;
  connection : option Connection;
  calls : list Call;
}.

Definition set_channel (c : option Channel) (s : State) : State :=
  {| this := {| url := url (this s); channel := c;
                isConnected := isConnected (this s);
                connectionLostCallback := connectionLostCallback (this s) |};
     connection := connection s; calls := calls s |}.

Definition set_isConnected (b : bool) (s : State) : State :=
  {| this := {| url := url (this s); channel := channel (this s);
                isConnected := b;
                connectionLostCallback := connectionLostCallback (this s) |};
     connection := connection s; calls := calls s |}.

Definition set_connection (c : option Connection) (s : State) : State :=
  {| this := this s; connection := c; calls := calls s |}.

Definition add_call (c : Call) (s : State) : State :=
  {| this := this s; connection := connection s; calls := calls s ++ [c] |}.

(** *** A state-and-exception monad for the method bodies *)

Definition M (A : Type) : Type := State → Result A * State.

Definition ret {A} (a : A) : M A := λ s, (Ok a, s).

Definition bind {A B} (m : M A) (k : A → M B) : M B :=
  λ s, match m s with
       | (Ok a, s') => k a s'
       | (Throw e, s') => (Throw e, s')
       end.

Definition throw {A} (e : Error) : M A := λ s, (Throw e, s).

(** [try { body } catch (error) { handler }] *)
Definition try_catch {A} (body : M A) (handler : Error → M A) : M A :=
  λ s, match body s with
       | (Ok a, s') => (Ok a, s')
       | (Throw e, s') => handler e s'
       end.

Definition get : M State := λ s, (Ok s, s).
Definition modify (f : State → State) : M unit := λ s, (Ok tt, f s).
Definition when (b : bool) (m : M unit) : M unit := if b then m else ret tt.

Declare Scope client_scope.
Delimit Scope client_scope with client.
Notation "x <- m ;; k" := (bind m (λ x, k))
  (at level 100, m at next level, right associativity) : client_scope.
Notation "m ;; k" := (bind m (λ _, k))
  (at level 100, right associativity) : client_scope.
Local Open Scope client_scope.

(** [new RabbitMQClient(url)] *)
Definition new (url : string) : Instance :=
  {| url := url; channel := None; isConnected := false;
     connectionLostCallback := None |}.

(** [getConnectionStatus()] *)
Definition getConnectionStatus (i : Instance) : bool :=
  isConnected i && bool_decide (channel i ≠ None).

(** [onConnectionLost(callback)] *)
Definition onConnectionLost (callback : Callback) (i : Instance) : Instance :=
  {| url := url i; channel := channel i; isConnected := isConnected i;
     connectionLostCallback := Some callback |}.

(** The tail of [connect()]: [createChannel()] resolved with [ch], the
    channel is stored and [this.isConnected = true]. *)
Definition connect_channel_created (ch : Channel) (i : Instance) : Instance :=
  {| url := url i; channel := Some ch; isConnected := true;
     connectionLostCallback := connectionLostCallback i |}.

(** The assignments of the connection's "close" handler to the instance
    that registered it. *)
Definition on_connection_closed (i : Instance) : Instance :=
  {| url := url i; channel := None; isConnected := false;
     connectionLostCallback := connectionLostCallback i |}.

Section Methods.

(** The transport is outside the repository: whether a call on it is
    rejected, and with which error, is a parameter, a function of the
    calls made before it. *)
Variable rejects : list Call → Call → option Error.

(** [await <call>]: the call is made, then resolves or rejects. *)
Definition await (c : Call) : M unit :=
  λ s, match rejects (calls s) c with
       | None => (Ok tt, add_call c s)
       | Some e => (Throw e, add_call c s)
       end.

(** Several calls awaited one after the other. *)
Fixpoint awaits (l : list Call) : M unit :=
  match l with
  | [] => ret tt
  | [c] => await c
  | c :: l' => await c;; awaits l'
  end.

(** Messages are values that JSON can serialise; the encoder is the
    runtime's. *)
Variable Message : Type.
Variable JSON_stringify : Message → string.

(** The defaults both [publish] and [sendToQueue] build for a queue. *)
Definition defaultOptions (queue : string) : Options :=
  {| exchange := Present (Some ("Exchange_" +:+ queue));
     routingKey := Present (Some queue);
     persistent := Absent;
     delay := Present (Some 0);
     exchangeType := Present (Some direct);
     headers := Present (Some ∅) |}.

(** [const mergedOptions = { ...defaultOptions, ...options }] *)
Definition mergedOptions (queue : string) (options : Options) : Options :=
  spread (defaultOptions queue) options.

(** [`${mergedOptions.exchange}-delayed`] *)
Definition delayed_exchange (merged : Options) : string :=
  template (read (exchange merged)) +:+ "-delayed".

(** The [catch] block shared by [publish] and [sendToQueue]. *)
Definition on_send_error (error : Error) : M unit :=
  when (message_includes "Channel closed" error
        || message_includes "Connection closed" error)
       (modify (set_isConnected false);;
        modify (set_channel None));;
  throw error.

(** [async publish(queue, message, options = {})] *)
Definition publish (queue : string) (message : Message) (options : Options)
  : M unit :=
  s <- get;;
  match channel (this s) with
  | None => throw (new_Error "Cannot publish: RabbitMQ channel not initialized")
  | Some ch =>
      try_catch
        (let merged := mergedOptions queue options in
         await (assertExchange ch (delayed_exchange merged)
                  "x-delayed-message" true (read (exchangeType merged)));;
         await (assertQueue ch queue true);;
         await (bindQueue ch queue (delayed_exchange merged)
                  (read (routingKey merged)));;
         let properties_headers :=
           <["x-delay" := header_of_number (read (delay merged))]>
             (spread_headers (read (headers merged))) in
         let content := Buffer_from (JSON_stringify message) in
         await (channel_publish ch (delayed_exchange merged)
                  (read (routingKey merged)) content properties_headers))
        on_send_error
  end.

(** [mergedOptions.delay && mergedOptions.delay > 0] *)
Definition delay_is_positive (merged : Options) : bool :=
  match read (delay merged) with
  | Some d => (negb (d =? 0) && (d >? 0))%Z
  | None => false
  end.

(** [async sendToQueue(queue, message, options = {})] *)
Definition sendToQueue (queue : string) (message : Message)
    (options : Options) : M unit :=
  s <- get;;
  match channel (this s) with
  | None =>
      throw (new_Error "Cannot send to queue: RabbitMQ channel not initialized")
  | Some ch =>
      try_catch
        (await (assertQueue ch queue true);;
         let merged := mergedOptions queue options in
         if delay_is_positive merged then
           await (assertExchange ch (delayed_exchange merged)
                    "x-delayed-message" true (read (exchangeType merged)));;
           await (bindQueue ch queue (delayed_exchange merged)
                    (read (routingKey merged)));;
           let headers_ : Headers :=
             {["x-delay" := header_of_number (read (delay merged))]} in
           let mergedHeader :=
             if hasOwnProperty (headers options)
             then headers_ ∪ spread_headers (read (headers options))
             else headers_ in
           let content := Buffer_from (JSON_stringify message) in
           await (channel_publish ch (delayed_exchange merged)
                    (read (routingKey merged)) content mergedHeader)
         else
           await (channel_sendToQueue ch queue
                    (Buffer_from (JSON_stringify message)) options))
        on_send_error
  end.

(** [async ack(message)]: [message] is the delivery or [null].  The call
    on the channel is not awaited: it returns or throws at once, and what it
    throws rejects the promise of [ack], there being no [catch]. *)
Definition ack (message : option nat) : M unit :=
  s <- get;;
  match message, channel (this s) with
  | Some tag, Some ch => await (channel_ack ch tag)
  | _, _ => ret tt
  end.

(** [async nack(message)] *)
Definition nack (message : option nat) : M unit :=
  s <- get;;
  match message, channel (this s) with
  | Some tag, Some ch => await (channel_nack ch tag)
  | _, _ => ret tt
  end.

(** [async close()]; the [catch] block logs and rethrows. *)
Definition close : M unit :=
  try_catch
    (s <- get;;
     match channel (this s) with
     | Some ch =>
         await (channel_close ch);;
         modify (set_channel None)
     | None => ret tt
     end;;
     s <- get;;
     match connection s with
     | Some c =>
         await (connection_close c);;
         modify (set_connection None)
     | None => ret tt
     end;;
     modify (set_isConnected false))
    (λ error, throw error).

End Methods.

(** *** The transport calls of the two send operations, for stating what
    they do

    The calls that declare the delayed exchange of [merged] for [queue] and
    publish [payload] through it. *)
Definition declare_delayed_exchange (ch : Channel) (merged : Options) : Call :=
  assertExchange ch (template (read (exchange merged)) +:+ "-delayed")
    "x-delayed-message" true (read (exchangeType merged)).

Definition bind_to_delayed_exchange (ch : Channel) (queue : string)
    (merged : Options) : Call :=
  bindQueue ch queue (template (read (exchange merged)) +:+ "-delayed")
    (read (routingKey merged)).

Definition publish_through_delayed_exchange (ch : Channel) (payload : Buffer)
    (merged : Options) : Call :=
  channel_publish ch (template (read (exchange merged)) +:+ "-delayed")
    (read (routingKey merged)) payload
    (<["x-delay" := header_of_number (read (delay merged))]>
       (spread_headers (read (headers merged)))).

(** The calls of a complete [publish]. *)
Definition publish_route (ch : Channel) (queue : string) (payload : Buffer)
    (merged : Options) : list Call :=
  [ declare_delayed_exchange ch merged;
    assertQueue ch queue true;
    bind_to_delayed_exchange ch queue merged;
    publish_through_delayed_exchange ch payload merged ].

(** The calls of a complete [sendToQueue]; [options] are the caller's. *)
Definition sendToQueue_route (ch : Channel) (queue : string)
    (payload : Buffer) (merged options : Options) : list Call :=
  assertQueue ch queue true ::
  match read (delay merged) with
  | Some d =>
      if (0 <? d)%Z
      then [ declare_delayed_exchange ch merged;
             bind_to_delayed_exchange ch queue merged;
             publish_through_delayed_exchange ch payload merged ]
      else [ channel_sendToQueue ch queue payload options ]
  | None => [ channel_sendToQueue ch queue payload options ]
  end.

(** A client with an open channel, a registered connection-lost callback
    and nothing sent yet. *)
Definition open_client : State :=
  {| this := mkInstance "amqp://broker" (Some 1%nat) true (Some 0%nat);
     connection := Some 2%nat;
     calls := [] |}.

(** A client that was never connected. *)
Definition closed_client : State :=
  {| this := new "amqp://broker"; connection := None; calls := [] |}.

(** A transport that accepts every call. *)
Definition accepting : list Call → Call → option Error := λ _ _, None.

End RabbitMQClient.

(* ===================================================================== *)
(** ** lib/RabbitMQConnection.ts *)
(* ===================================================================== *)

Module RabbitMQConnection.

(** A [RabbitMQClient] instance, by reference: its index among the
    instances constructed so far. *)
Definition Ref := nat.

(** A registered consumer object, by identity. *)
Definition ConsumerRef := nat.

(** What the transport and the registered consumers see of the manager. *)
Inductive Event :=
| constructed (r : Ref) (url : string)      (* new RabbitMQClient(url) *)
| connect_called (r : Ref)                   (* client.connect() *)
| consume_called (c : ConsumerRef)           (* consumer.consume() *)
| consumer_started (c : ConsumerRef)         (* console.log, line 90 *)
| consumer_failed (c : ConsumerRef) (e : Error). (* console.error, line 92 *)

(** The static fields of [RabbitMQConnection], the [RabbitMQClient]
    instances they may refer to, the class-level
    [RabbitMQClient.connection] (with the instance whose handlers were
    registered on it), and the events so far. *)
Record World := mkWorld {
  rabbitMQClient : option Ref;
  connectionUrl : string;
  consumers : list ConsumerRef;
  isConnecting : bool;
  isReconnecting : bool;
  instances : list RabbitMQClient.Instance;
  connection : option (RabbitMQClient.Connection * Ref);
  log : list Event;
}.

Definition set_rabbitMQClient (c : option Ref) (w : World) : World :=
  {| rabbitMQClient := c; connectionUrl := connectionUrl w;
     consumers := consumers w; isConnecting := isConnecting w;
     isReconnecting := isReconnecting w; instances := instances w;
     connection := connection w; log := log w |}.

Definition set_connectionUrl (u : string) (w : World) : World :=
  {| rabbitMQClient := rabbitMQClient w; connectionUrl := u;
     consumers := consumers w; isConnecting := isConnecting w;
     isReconnecting := isReconnecting w; instances := instances w;
     connection := connection w; log := log w |}.

Definition set_isConnecting (b : bool) (w : World) : World :=
  {| rabbitMQClient := rabbitMQClient w; connectionUrl := connectionUrl w;
     consumers := consumers w; isConnecting := b;
     isReconnecting := isReconnecting w; instances := instances w;
     connection := connection w; log := log w |}.

Definition set_isReconnecting (b : bool) (w : World) : World :=
  {| rabbitMQClient := rabbitMQClient w; connectionUrl := connectionUrl w;
     consumers := consumers w; isConnecting := isConnecting w;
     isReconnecting := b; instances := instances w;
     connection := connection w; log := log w |}.

Definition set_instances (l : list RabbitMQClient.Instance) (w : World)
  : World :=
  {| rabbitMQClient := rabbitMQClient w; connectionUrl := connectionUrl w;
     consumers := consumers w; isConnecting := isConnecting w;
     isReconnecting := isReconnecting w; instances := l;
     connection := connection w; log := log w |}.

Definition set_connection
    (c : option (RabbitMQClient.Connection * Ref)) (w : World) : World :=
  {| rabbitMQClient := rabbitMQClient w; connectionUrl := connectionUrl w;
     consumers := consumers w; isConnecting := isConnecting w;
     isReconnecting := isReconnecting w; instances := instances w;
     connection := c; log := log w |}.

Definition add_event (e : Event) (w : World) : World :=
  {| rabbitMQClient := rabbitMQClient w; connectionUrl := connectionUrl w;
     consumers := consumers w; isConnecting := isConnecting w;
     isReconnecting := isReconnecting w; instances := instances w;
     connection := connection w; log := log w ++ [e] |}.

(** A method applied to the instance behind a reference. *)
Definition update_instance (r : Ref)
    (f : RabbitMQClient.Instance → RabbitMQClient.Instance) (w : World)
  : World :=
  match instances w !! r with
  | Some i => set_instances (<[r := f i]> (instances w)) w
  | None => w
  end.

(** [static registerConsumers(consumers)] *)
Definition registerConsumers (cs : list ConsumerRef) (w : World) : World :=
  {| rabbitMQClient := rabbitMQClient w; connectionUrl := connectionUrl w;
     consumers := cs; isConnecting := isConnecting w;
     isReconnecting := isReconnecting w; instances := instances w;
     connection := connection w; log := log w |}.

(** [static getClient()] *)
Definition getClient (w : World) : Result Ref :=
  match rabbitMQClient w with
  | None =>
      Throw (new_Error
        "RabbitMQ client not initialized. Call connect before accessing the client.")
  | Some r => Ok r
  end.

(** [static isConnected()], which is also the condition of lines 39-42 *)
Definition isConnected (w : World) : bool :=
  match rabbitMQClient w with
  | None => false
  | Some r =>
      match instances w !! r with
      | Some i => RabbitMQClient.getConnectionStatus i
      | None => false
      end
  end.

(** [static reset()] *)
Definition reset (w : World) : World :=
  set_isConnecting false (set_rabbitMQClient None w).

(** The closure [() => { this.handleConnectionLost(); }] of line 58. *)
Definition handleConnectionLost_callback : RabbitMQClient.Callback := 0%nat.

(** What [RabbitMQConnection.rabbitMQClient.onConnectionLost(...)] throws
    at line 58 when the field is [null]. *)
Definition TypeError_null : Error :=
  new_Error "Cannot read properties of null (reading 'onConnectionLost')".

(** Where an invocation of [connect] stands: before its body runs, at one
    of its [await]s (or at one inside [RabbitMQClient.connect], which it
    awaits at line 55), or finished.  Between two such points the code runs
    without interruption. *)
Inductive Point :=
| at_call (rabbitMQUrl : string) (retryOnFail : bool)
| at_poll                                    (* line 32 *)
| at_amqp_connect (r : Ref) (rabbitMQUrl : string) (retryOnFail : bool)
| at_createChannel (r : Ref) (rabbitMQUrl : string) (retryOnFail : bool)
| at_connect_settled (result : Result unit)  (* line 55, promise settled *)
                     (rabbitMQUrl : string) (retryOnFail : bool)
| at_backoff (rabbitMQUrl : string) (retryOnFail : bool)   (* line 73 *)
| at_consume (current : ConsumerRef) (rest : list ConsumerRef) (* line 89 *)
| returned
| thrown (e : Error).

(** An invocation of [handleConnectionLost], which awaits [connect] at
    line 108. *)
Inductive Task :=
| connect_task (p : Point)
| lost_call
| lost_awaiting (p : Point)
| lost_returned.

Section Steps.

(** Outside the repository: how the broker answers [amqp.connect] and
    [createChannel] for the instance that asks, and how a consumer's
    [consume()] ends given what happened before. *)
Variable amqp_connect : Ref → Error + RabbitMQClient.Connection.
Variable createChannel : Ref → Error + RabbitMQClient.Channel.
Variable consume : ConsumerRef → list Event → option Error.

(** The [for ... of] of [startConsumers] over the consumers still to be
    started: it calls [consume()] of the next one and awaits it, or ends. *)
Definition startConsumers_loop (cs : list ConsumerRef) (w : World)
  : World * Point :=
  match cs with
  | [] => (w, returned)
  | c :: rest => (add_event (consume_called c) w, at_consume c rest)
  end.

(** [private static async startConsumers()], up to its first [await]. *)
Definition startConsumers (w : World) : World * Point :=
  startConsumers_loop (consumers w) w.

(** Lines 77-81: the loop is left, the flag cleared and the consumers
    started if there are any. *)
Definition after_loop (w : World) : World * Point :=
  let w := set_isConnecting false w in
  if (0 <? length (consumers w))%nat
  then startConsumers w
  else (w, returned).

(** Lines 54-55: [new RabbitMQClient(rabbitMQUrl)] is stored in the static
    field and its [connect()] is called. *)
Definition construct (rabbitMQUrl : string) (w : World) : World :=
  let r := length (instances w) in
  let w := set_instances (instances w ++ [RabbitMQClient.new rabbitMQUrl]) w in
  let w := set_rabbitMQClient (Some r) w in
  let w := add_event (constructed r rabbitMQUrl) w in
  add_event (connect_called r) w.

(** Lines 52-55: one iteration of [while (!connected)] up to the first
    [await] inside [RabbitMQClient.connect], which asks for a connection
    only if the class has none. *)
Definition attempt (rabbitMQUrl : string) (retryOnFail : bool) (w : World)
  : World * Point :=
  let r := length (instances w) in
  (construct rabbitMQUrl w,
   match connection w with
   | None => at_amqp_connect r rabbitMQUrl retryOnFail
   | Some _ => at_createChannel r rabbitMQUrl retryOnFail
   end).

(** Lines 64-74: the [catch] block of the loop. *)
Definition on_attempt_error (error : Error) (rabbitMQUrl : string)
    (retryOnFail : bool) (w : World) : World * Point :=
  let w := set_rabbitMQClient None w in
  if negb retryOnFail
  then (set_isConnecting false w, thrown error)
  else (w, at_backoff rabbitMQUrl retryOnFail).

(** One uninterrupted run of [connect], from one point to the next. *)
Definition step (w : World) (p : Point) : World * Point :=
  match p with
  | at_call rabbitMQUrl retryOnFail =>
      if isConnecting w then (w, at_poll)
      else
        let w := set_connectionUrl rabbitMQUrl w in
        if isConnected w then (w, returned)
        else attempt rabbitMQUrl retryOnFail (set_isConnecting true w)
  | at_poll =>
      if isConnecting w then (w, at_poll) else (w, returned)
  | at_amqp_connect r rabbitMQUrl retryOnFail =>
      match amqp_connect r with
      | inr c =>
          (set_connection (Some (c, r)) w,
           at_createChannel r rabbitMQUrl retryOnFail)
      | inl e => (w, at_connect_settled (Throw e) rabbitMQUrl retryOnFail)
      end
  | at_createChannel r rabbitMQUrl retryOnFail =>
      match createChannel r with
      | inr ch =>
          (update_instance r (RabbitMQClient.connect_channel_created ch) w,
           at_connect_settled (Ok tt) rabbitMQUrl retryOnFail)
      | inl e => (w, at_connect_settled (Throw e) rabbitMQUrl retryOnFail)
      end
  | at_connect_settled (Ok _) rabbitMQUrl retryOnFail =>
      match rabbitMQClient w with
      | Some r =>
          after_loop
            (update_instance r
               (RabbitMQClient.onConnectionLost handleConnectionLost_callback)
               w)
      | None => on_attempt_error TypeError_null rabbitMQUrl retryOnFail w
      end
  | at_connect_settled (Throw e) rabbitMQUrl retryOnFail =>
      on_attempt_error e rabbitMQUrl retryOnFail w
  | at_backoff rabbitMQUrl retryOnFail =>
      attempt rabbitMQUrl retryOnFail w
  | at_consume c rest =>
      match consume c (log w) with
      | None => startConsumers_loop rest (add_event (consumer_started c) w)
      | Some e => startConsumers_loop rest (add_event (consumer_failed c e) w)
      end
  | returned => (w, returned)
  | thrown e => (w, thrown e)
  end.

(** [n] steps of one invocation with nothing else running. *)
Fixpoint run (n : nat) (w : World) (p : Point) : World * Point :=
  match n with
  | O => (w, p)
  | S n' => let '(w', p') := step w p in run n' w' p'
  end.

(** The "close" event of the connection: the handler registered by the
    instance [r] clears that instance and the class-level connection; it
    reports whether it then invokes the connection-lost callback. *)
Definition connection_closed (w : World) : World * bool :=
  match connection w with
  | None => (w, false)
  | Some (_, r) =>
      let w' := set_connection None
                  (update_instance r RabbitMQClient.on_connection_closed w) in
      match instances w !! r with
      | Some i =>
          (w', bool_decide (RabbitMQClient.connectionLostCallback i ≠ None))
      | None => (w', false)
      end
  end.

(** One uninterrupted run of [handleConnectionLost] (or of the [connect]
    it awaits). *)
Definition step_task (w : World) (t : Task) : World * Task :=
  match t with
  | connect_task p => let '(w', p') := step w p in (w', connect_task p')
  | lost_call =>
      if isReconnecting w then (w, lost_returned)
      else
        let w := set_isReconnecting true w in
        let w := set_rabbitMQClient None w in
        let '(w', p') := step w (at_call (connectionUrl w) true) in
        (w', lost_awaiting p')
  | lost_awaiting returned => (set_isReconnecting false w, lost_returned)
  | lost_awaiting (thrown _) => (set_isReconnecting false w, lost_returned)
  | lost_awaiting p => let '(w', p') := step w p in (w', lost_awaiting p')
  | lost_returned => (w, lost_returned)
  end.

Fixpoint run_task (n : nat) (w : World) (t : Task) : World * Task :=
  match n with
  | O => (w, t)
  | S n' => let '(w', t') := step_task w t in run_task n' w' t'
  end.

(** Two invocations of [connect] in one event loop: a schedule says
    which of them runs next. *)
Inductive Caller := first | second.

Definition step_pair (st : World * Point * Point) (who : Caller)
  : World * Point * Point :=
  let '(w, a, b) := st in
  match who with
  | first => let '(w', a') := step w a in (w', a', b)
  | second => let '(w', b') := step w b in (w', a, b')
  end.

Definition interleave (schedule : list Caller)
    (st : World * Point * Point) : World * Point * Point :=
  fold_left step_pair schedule st.

(** How [RabbitMQClient.connect()] ends for the fresh instance [r] when
    it is called in [w]: it asks for a connection only if the class has
    none, then for a channel. *)
Definition client_connect_result (w : World) (r : Ref) : Result unit :=
  match connection w with
  | None =>
      match amqp_connect r with
      | inl e => Throw e
      | inr _ =>
          match createChannel r with
          | inl e => Throw e
          | inr _ => Ok tt
          end
      end
  | Some _ =>
      match createChannel r with
      | inl e => Throw e
      | inr _ => Ok tt
      end
  end.

(** The invocation has left the loop, or it is in an attempt on the
    instance [r] that the broker will let succeed. *)
Definition succeeding (r : Ref) (w : World) (a : Point) : Prop :=
  match a with
  | at_amqp_connect r' _ _ =>
      rabbitMQClient w = Some r ∧ r' = r ∧
      (∃ c, amqp_connect r = inr c) ∧ (∃ ch, createChannel r = inr ch)
  | at_createChannel r' _ _ =>
      rabbitMQClient w = Some r ∧ r' = r ∧ (∃ ch, createChannel r = inr ch)
  | at_connect_settled (Ok _) _ _ => rabbitMQClient w = Some r
  | at_consume _ _ | returned | thrown _ => True
  | _ => False
  end.

End Steps.

(** *** Notions for stating the properties *)

(** The invocation is inside the [while (!connected)] loop. *)
Definition in_flight (p : Point) : bool :=
  match p with
  | at_amqp_connect _ _ _ | at_createChannel _ _ _
  | at_connect_settled _ _ _ | at_backoff _ _ => true
  | _ => false
  end.

(** The invocation has left the loop: it starts consumers or is finished. *)
Definition past_loop (p : Point) : bool :=
  match p with
  | at_consume _ _ | returned | thrown _ => true
  | _ => false
  end.

(** While a connect is in flight its invocation is inside the loop, and
    otherwise it has left it. *)
Definition flag_follows (w : World) (a : Point) : Prop :=
  (isConnecting w = true ∧ in_flight a = true) ∨
  (isConnecting w = false ∧ past_loop a = true).

(** A second caller that found a connect in flight: it is polling, or it
    has returned and no connect is in flight. *)
Definition waiting (w : World) (b : Point) : Prop :=
  b = at_poll ∨ (b = returned ∧ isConnecting w = false).

(** The consumers whose [consume()] was called, in the order of the calls. *)
Definition consume_calls (l : list Event) : list ConsumerRef :=
  omap (λ e, match e with consume_called c => Some c | _ => None end) l.

(** The number of [RabbitMQClient] instances constructed. *)
Definition constructions (l : list Event) : nat :=
  length (omap (λ e, match e with constructed r _ => Some r | _ => None end) l).

(** The number of instances that report a live connection and channel. *)
Definition connected_clients (w : World) : nat :=
  length (List.filter RabbitMQClient.getConnectionStatus (instances w)).

(** How often the first caller runs in a schedule. *)
Definition turns_of_first (schedule : list Caller) : nat :=
  length (List.filter (λ c, match c with first => true | second => false end)
            schedule).

(** *** Worlds and brokers for the examples *)

(** Nothing connected, nothing registered. *)
Definition idle : World :=
  {| rabbitMQClient := None; connectionUrl := ""; consumers := [];
     isConnecting := false; isReconnecting := false; instances := [];
     connection := None; log := [] |}.

(** One client, connected to [amqp://a], and two registered consumers. *)
Definition live : World :=
  {| rabbitMQClient := Some 0%nat; connectionUrl := "amqp://a";
     consumers := [10; 11]%nat;
     isConnecting := false; isReconnecting := false;
     instances :=
       [RabbitMQClient.mkInstance "amqp://a" (Some 1%nat) true
          (Some handleConnectionLost_callback)];
     connection := Some (5%nat, 0%nat); log := [] |}.

(** A broker that accepts every connection and opens every channel. *)
Definition amqp_up : Ref → Error + RabbitMQClient.Connection :=
  λ r, inr (100 + r)%nat.
Definition channel_up : Ref → Error + RabbitMQClient.Channel :=
  λ r, inr (200 + r)%nat.

(** A broker that refuses connections. *)
Definition ECONNREFUSED : Error := new_Error "connect ECONNREFUSED".
Definition amqp_down : Ref → Error + RabbitMQClient.Connection :=
  λ _, inl ECONNREFUSED.

(** A broker that refuses the first instance's connection only. *)
Definition amqp_up_later : Ref → Error + RabbitMQClient.Connection :=
  λ r, match r with O => inl ECONNREFUSED | _ => inr (100 + r)%nat end.

(** Consumers whose [consume()] succeeds, and consumers of which the one
    with identity [10] fails. *)
Definition consume_ok : ConsumerRef → list Event → option Error :=
  λ _ _, None.
Definition consume_10_fails : ConsumerRef → list Event → option Error :=
  λ c _, if Nat.eqb c 10 then Some (new_Error "Channel closed") else None.

End RabbitMQConnection.

(* ===================================================================== *)
(** ** lib/Publisher.ts *)
(* ===================================================================== *)

Module Publisher.

(** The fields of a [Publisher] instance; [_rabbitMQClient] holds a
    reference to a client or [null]. *)
Record Instance := mkInstance {
  queueName : string;
  options : RabbitMQClient.Options;
  _rabbitMQClient : option RabbitMQConnection.Ref;
}.

(** [constructor(queueName, options = {})] *)
Definition new (queueName : string) (options : RabbitMQClient.Options)
  : Instance :=
  {| queueName := queueName; options := options; _rabbitMQClient := None |}.

(** [protected get rabbitMQClient()]: the value returned (or the error of
    [getClient]) and the instance afterwards. *)
Definition rabbitMQClient (w : RabbitMQConnection.World) (p : Instance)
  : Result RabbitMQConnection.Ref * Instance :=
  match _rabbitMQClient p with
  | Some r => (Ok r, p)
  | None =>
      match RabbitMQConnection.getClient w with
      | Ok r =>
          (Ok r, {| queueName := queueName p; options := options p;
                    _rabbitMQClient := Some r |})
      | Throw e => (Throw e, p)
      end
  end.

End Publisher.

(* ===================================================================== *)
(** ** The consumer base class *)
(* ===================================================================== *)

Module Consumer.

Import RabbitMQClient.

(** Modelled from the spec: the retry policy bound by the constructor of
    the consumer base class (section 4.3), whose source file is not part of
    the sources at hand. *)
Record Policy := mkPolicy {
  retry : bool;
  retry_count : Z;
  retry_delay_ms : Z;
}.

(** Modelled from the spec: the defaults of the retry policy,
    [{retry: bool=true, retry_count: int=3, retry_delay_ms: int=0}]. *)
Definition default_policy : Policy :=
  {| retry := true; retry_count := 3; retry_delay_ms := 0 |}.

(** Modelled from the spec: a consumer is bound to one queue name and a
    retry policy (section 3, Consumer Registration). *)
Record Instance := mkInstance {
  queueName : string;
  policy : Policy;
}.

(** Modelled from the spec: a delivery is a JSON-encoded payload with
    headers that carry the retry metadata (section 6, message envelope). *)
Record Delivery := mkDelivery {
  deliveryTag : nat;
  content : Buffer;
  delivery_headers : Headers;
}.

Section Consume.

Variable Message : Type.

(** Modelled from the spec: what the consumer asks of the shared client
    while it handles a delivery (section 4.3): publish a message to a
    queue with options, acknowledge or negatively acknowledge a
    delivery. *)
Inductive Request :=
| publish (queue : string) (message : Message) (options : Options)
| ack (d : Delivery)
| nack (d : Delivery).

(** Outside the model: the JSON decoder, the subclass's [execute] (which
    succeeds or fails with an error), how an error is described, and the
    names of the two header keys, none of which the specification
    fixes. *)
Variable JSON_parse : Buffer → option Message.
Variable execute : Message → Result unit.
Variable describe : Error → string.
Variable attempt_key : string.
Variable error_key : string.

(** Modelled from the spec: "read the retry-attempt counter from
    delivery headers (default 0)". *)
Definition attempt_counter (h : Headers) : Z :=
  match h !! attempt_key with
  | Some (HNum n) => n
  | _ => 0
  end.

(** Modelled from the spec: dead-letter queue naming,
    [<original queue>_error] (section 6). *)
Definition error_queue (queue : string) : string := queue +:+ "_error".

(** Modelled from the spec: "Otherwise increment the counter, record the
    error description", on the delivery's headers. *)
Definition retry_headers (error : Error) (h : Headers) : Headers :=
  <[error_key := HStr (describe error)]>
    (<[attempt_key := HNum (attempt_counter h + 1)]> h).

(** Modelled from the spec: step 4 of [consume()] in section 4.3, the
    handling of a failed execution. *)
Definition on_failure (c : Instance) (d : Delivery) (message : Message)
    (error : Error) : list Request :=
  if negb (retry (policy c))
     || (retry_count (policy c) <=? attempt_counter (delivery_headers d))%Z
  then
    [ publish (error_queue (queueName c)) message
        {| exchange := Absent; routingKey := Absent; persistent := Absent;
           delay := Absent; exchangeType := Absent;
           headers := Present (Some (delivery_headers d)) |};
      ack d ]
  else
    [ publish (queueName c) message
        {| exchange := Absent; routingKey := Absent; persistent := Absent;
           delay := Present (Some (retry_delay_ms (policy c)));
           exchangeType := Absent;
           headers :=
             Present (Some (retry_headers error (delivery_headers d))) |};
      ack d ].

(** Modelled from the spec: steps 1 to 4 of [consume()] in section 4.3,
    for one delivery.  The specification does not say what happens to a
    payload that is not JSON: that case has no result here. *)
Definition on_delivery (c : Instance) (d : Delivery)
  : option (list Request) :=
  match JSON_parse (content d) with
  | None => None
  | Some message =>
      match execute message with
      | Ok _ => Some [ack d]
      | Throw error => Some (on_failure c d message error)
      end
  end.

(** Counting the requests of one kind. *)
Definition is_publish_to (queue : string) (r : Request) : bool :=
  match r with
  | publish q _ _ => String.eqb q queue
  | _ => false
  end.

Definition is_ack_of (d : Delivery) (r : Request) : bool :=
  match r with
  | ack d' => Nat.eqb (deliveryTag d') (deliveryTag d)
  | _ => false
  end.

Definition is_ack (r : Request) : bool :=
  match r with ack _ => true | _ => false end.

Definition is_nack (r : Request) : bool :=
  match r with nack _ => true | _ => false end.

Definition is_publish (r : Request) : bool :=
  match r with publish _ _ _ => true | _ => false end.

Definition count (f : Request → bool) (l : list Request) : nat :=
  length (List.filter f l).

End Consume.

End Consumer.

(* ===================================================================== *)
(** ** lib/RabbitMQClient.ts: consume and getConsumerCount *)
(* ===================================================================== *)

Module RabbitMQClientQueue.

Import RabbitMQClient.

(** The transport calls of the two methods.  The callback handed to
    [channel.consume] is known by identity only. *)
Inductive QueueCall :=
| queue_assert (ch : Channel) (queue : string) (durable : bool)
| queue_consume (ch : Channel) (queue : string) (callback : nat)
                (noAck : bool).

(** The instance and the calls made so far. *)
Record QueueState := mkQueueState {
  self : Instance;
  made : list QueueCall;
}.

Definition QM (A : Type) : Type := QueueState → Result A * QueueState.

Section Methods.

(** Outside the repository: a call is rejected with an error, or it
    resolves; what [assertQueue] resolves with carries the queue's
    [consumerCount]. *)
Variable answers : list QueueCall → QueueCall → Error + nat.

(** [await <call>] *)
Definition queue_await (c : QueueCall) : QM nat :=
  λ s, let s' := {| self := self s; made := made s ++ [c] |} in
       match answers (made s) c with
       | inr n => (Ok n, s')
       | inl e => (Throw e, s')
       end.

(** [async consume(queue, callback)]; the [catch] block logs and
    rethrows. *)
Definition consume (queue : string) (callback : nat) : QM unit :=
  λ s, match channel (self s) with
       | None =>
           (Throw (new_Error "Cannot consume: RabbitMQ channel not initialized"),
            s)
       | Some ch =>
           match queue_await (queue_assert ch queue true) s with
           | (Throw e, s1) => (Throw e, s1)
           | (Ok _, s1) =>
               match queue_await (queue_consume ch queue callback false) s1 with
               | (Throw e, s2) => (Throw e, s2)
               | (Ok _, s2) => (Ok tt, s2)
               end
           end
       end.

(** [async getConsumerCount(queue)]; the [catch] block logs and
    rethrows. *)
Definition getConsumerCount (queue : string) : QM nat :=
  λ s, match channel (self s) with
       | None =>
           (Throw (new_Error
              "Cannot get consumer count: RabbitMQ channel not initialized"),
            s)
       | Some ch =>
           match queue_await (queue_assert ch queue true) s with
           | (Throw e, s1) => (Throw e, s1)
           | (Ok consumerCount, s1) => (Ok consumerCount, s1)
           end
       end.

End Methods.

(** [getChannel()] *)
Definition getChannel (i : Instance) : Result Channel :=
  match channel i with
  | None => Throw (new_Error "Channel not initialized. Connection may have failed.")
  | Some ch => Ok ch
  end.

(** A broker on which every queue has three consumers, and one that has
    closed the channel. *)
Definition three_consumers : list QueueCall → QueueCall → Error + nat :=
  λ _ _, inr 3%nat.
Definition channel_is_closed : list QueueCall → QueueCall → Error + nat :=
  λ _ _, inl (new_Error "Channel closed").

End RabbitMQClientQueue.

(* ===================================================================== *)
(** ** lib/RabbitMQClient.ts: publish and sendToQueue on any message

    [MessageType] is unconstrained, and the runtime cannot encode every
    value: [JSON.stringify] throws a [TypeError] on a cyclic object or a
    [BigInt], and returns [undefined] for [undefined], which [Buffer.from]
    refuses with a [TypeError].  Both operations encode inside their [try],
    after the calls that declare and before the call that sends. *)
(* ===================================================================== *)

Module RabbitMQClientEncoding.

Import RabbitMQClient.
Local Open Scope client_scope.

(** What [Buffer.from(undefined)] throws. *)
Definition TypeError_first_argument : Error :=
  new_Error "The first argument must be of type string or an instance of Buffer, ArrayBuffer, or Array or an Array-like Object. Received undefined".

Section Methods.

Variable rejects : list Call → Call → option Error.

(** How [Buffer.from(JSON.stringify(message))] ends is the runtime's: the
    bytes, or the error thrown. *)
Variable Message : Type.
Variable encode : Message → Error + Buffer.

(** [Buffer.from(JSON.stringify(message))] *)
Definition Buffer_from_JSON_stringify (message : Message) : M Buffer :=
  match encode message with
  | inr content => ret content
  | inl e => throw e
  end.

(** [async publish(queue, message, options = {})] *)
Definition publish (queue : string) (message : Message) (options : Options)
  : M unit :=
  s <- get;;
  match channel (this s) with
  | None => throw (new_Error "Cannot publish: RabbitMQ channel not initialized")
  | Some ch =>
      try_catch
        (let merged := mergedOptions queue options in
         await rejects
           (assertExchange ch (delayed_exchange merged)
              "x-delayed-message" true (read (exchangeType merged)));;
         await rejects (assertQueue ch queue true);;
         await rejects
           (bindQueue ch queue (delayed_exchange merged)
              (read (routingKey merged)));;
         let properties_headers :=
           <["x-delay" := header_of_number (read (delay merged))]>
             (spread_headers (read (headers merged))) in
         content <- Buffer_from_JSON_stringify message;;
         await rejects
           (channel_publish ch (delayed_exchange merged)
              (read (routingKey merged)) content properties_headers))
        on_send_error
  end.

(** [async sendToQueue(queue, message, options = {})] *)
Definition sendToQueue (queue : string) (message : Message)
    (options : Options) : M unit :=
  s <- get;;
  match channel (this s) with
  | None =>
      throw (new_Error "Cannot send to queue: RabbitMQ channel not initialized")
  | Some ch =>
      try_catch
        (await rejects (assertQueue ch queue true);;
         let merged := mergedOptions queue options in
         if delay_is_positive merged then
           await rejects
             (assertExchange ch (delayed_exchange merged)
                "x-delayed-message" true (read (exchangeType merged)));;
           await rejects
             (bindQueue ch queue (delayed_exchange merged)
                (read (routingKey merged)));;
           let headers_ : Headers :=
             {["x-delay" := header_of_number (read (delay merged))]} in
           let mergedHeader :=
             if hasOwnProperty (headers options)
             then headers_ ∪ spread_headers (read (headers options))
             else headers_ in
           content <- Buffer_from_JSON_stringify message;;
           await rejects
             (channel_publish ch (delayed_exchange merged)
                (read (routingKey merged)) content mergedHeader)
         else
           content <- Buffer_from_JSON_stringify message;;
           await rejects (channel_sendToQueue ch queue content options))
        on_send_error
  end.

End Methods.

(** The calls that come before the encoding, in [publish] and in
    [sendToQueue]. *)
Definition publish_declares (ch : Channel) (queue : string)
    (merged : Options) : list Call :=
  [ declare_delayed_exchange ch merged;
    assertQueue ch queue true;
    bind_to_delayed_exchange ch queue merged ].

Definition sendToQueue_declares (ch : Channel) (queue : string)
    (merged : Options) : list Call :=
  assertQueue ch queue true ::
  if delay_is_positive merged
  then [ declare_delayed_exchange ch merged;
         bind_to_delayed_exchange ch queue merged ]
  else [].

(** Messages that are a JSON text or [undefined], and their encoding. *)
Definition text_or_undefined : option string → Error + Buffer :=
  λ m, match m with
       | Some text => inr (Buffer_from text)
       | None => inl TypeError_first_argument
       end.

End RabbitMQClientEncoding.

(* ===================================================================== *)
(** ** Transports for the examples *)
(* ===================================================================== *)

Module Transports.

Import RabbitMQClient.

(** The broker closes the channel when a message is published. *)
Definition closes_on_publish : list Call → Call → option Error :=
  λ _ c, match c with
         | channel_publish _ _ _ _ _ =>
             Some (new_Error "Error: Channel closed by server")
         | _ => None
         end.

(** The broker refuses to bind. *)
Definition refuses_bind : list Call → Call → option Error :=
  λ _ c, match c with
         | bindQueue _ _ _ _ => Some (new_Error "NOT_FOUND - no exchange")
         | _ => None
         end.

(** Closing the channel fails; closing the connection fails. *)
Definition channel_close_fails : list Call → Call → option Error :=
  λ _ c, match c with
         | channel_close _ => Some (new_Error "Channel closing")
         | _ => None
         end.
Definition connection_close_fails : list Call → Call → option Error :=
  λ _ c, match c with
         | connection_close _ => Some (new_Error "Connection closing")
         | _ => None
         end.

(** [{delay: 500, headers: {trace: "abc", "x-delay": 9}}] *)
Definition traced_options : Options :=
  {| exchange := Absent; routingKey := Absent; persistent := Absent;
     delay := Present (Some 500%Z); exchangeType := Absent;
     headers := Present (Some (<["trace" := HStr "abc"]>
                                 (<["x-delay" := HNum 9]> ∅))) |}.

(** [{exchange: undefined, delay: undefined}] *)
Definition undefined_options : Options :=
  {| exchange := Present None; routingKey := Absent; persistent := Absent;
     delay := Present None; exchangeType := Absent; headers := Absent |}.

End Transports.

(* ===================================================================== *)
(** ** lib/RabbitMQConnection.ts: close, and notions for the properties *)
(* ===================================================================== *)

Module RabbitMQConnectionMore.

Import RabbitMQConnection.

(** [this.channel = null], line 303 of [RabbitMQClient.close()]. *)
Definition channel_dropped (i : RabbitMQClient.Instance)
  : RabbitMQClient.Instance :=
  {| RabbitMQClient.url := RabbitMQClient.url i;
     RabbitMQClient.channel := None;
     RabbitMQClient.isConnected := RabbitMQClient.isConnected i;
     RabbitMQClient.connectionLostCallback :=
       RabbitMQClient.connectionLostCallback i |}.

(** [this.isConnected = false], line 309 of [RabbitMQClient.close()]. *)
Definition disconnected (i : RabbitMQClient.Instance)
  : RabbitMQClient.Instance :=
  {| RabbitMQClient.url := RabbitMQClient.url i;
     RabbitMQClient.channel := RabbitMQClient.channel i;
     RabbitMQClient.isConnected := false;
     RabbitMQClient.connectionLostCallback :=
       RabbitMQClient.connectionLostCallback i |}.

Section Close.

Variable rejects :
  list RabbitMQClient.Call → RabbitMQClient.Call → option Error.
Variable amqp_connect : Ref → Error + RabbitMQClient.Connection.
Variable createChannel : Ref → Error + RabbitMQClient.Channel.
Variable consume : ConsumerRef → list Event → option Error.

(** The connection-lost callback is invoked: [handleConnectionLost()] runs
    up to its first [await]. *)
Definition connectionLostCallback_invoked (w : World) : World * option Task :=
  let '(w', t) := step_task amqp_connect createChannel consume w lost_call in
  (w', Some t).

(** Lines 305-309 of [RabbitMQClient.close()] for the instance [r], then
    line 124.  The transport emits "close" on a connection that the client
    closes as on one that is lost, when the broker has confirmed and before
    [close()] resumes: the handler of lines 63-72 runs in between, and with
    it, if the instance that registered the handler has a callback, the
    start of [handleConnectionLost]. *)
Definition close_connection (r : Ref) (w : World)
    (calls : list RabbitMQClient.Call)
  : Result unit * World * list RabbitMQClient.Call * option Task :=
  match connection w with
  | Some (c, _) =>
      let calls' := calls ++ [RabbitMQClient.connection_close c] in
      match rejects calls (RabbitMQClient.connection_close c) with
      | Some e => (Throw e, w, calls', None)
      | None =>
          let '(w, invoked) := connection_closed w in
          let '(w, task) :=
            if invoked then connectionLostCallback_invoked w else (w, None) in
          let w := set_connection None w in
          let w := update_instance r disconnected w in
          (Ok tt, set_rabbitMQClient None w, calls', task)
      end
  | None =>
      (Ok tt, set_rabbitMQClient None (update_instance r disconnected w),
       calls, None)
  end.

(** [static async close()], from its call to its return with nothing else
    running: how it ends, the manager and the transport calls then, and the
    invocation of [handleConnectionLost] that it has set off, if any, where
    that stands.  The client's [close()] (whose [catch] rethrows) runs on
    the instance behind the reference; the "close" event of the channel it
    closes assigns what line 303 assigns. *)
Definition close (w : World) (calls : list RabbitMQClient.Call)
  : Result unit * World * list RabbitMQClient.Call * option Task :=
  match rabbitMQClient w with
  | None =>
      (Throw (new_Error
         "RabbitMQ client not initialized. Call connect before accessing the client."),
       w, calls, None)
  | Some r =>
      match instances w !! r ≫= RabbitMQClient.channel with
      | Some ch =>
          let calls' := calls ++ [RabbitMQClient.channel_close ch] in
          match rejects calls (RabbitMQClient.channel_close ch) with
          | Some e => (Throw e, w, calls', None)
          | None => close_connection r (update_instance r channel_dropped w) calls'
          end
      | None => close_connection r w calls
      end
  end.

End Close.

(** Two worlds that differ in their events at most. *)
Definition same_but_log (w w' : World) : Prop :=
  rabbitMQClient w' = rabbitMQClient w ∧
  connectionUrl w' = connectionUrl w ∧
  consumers w' = consumers w ∧
  isConnecting w' = isConnecting w ∧
  isReconnecting w' = isReconnecting w ∧
  instances w' = instances w ∧
  connection w' = connection w.

(** An invocation of [connect] with [retryOnFail = true] that has not
    thrown. *)
Definition retrying (p : Point) : Prop :=
  match p with
  | at_call _ b | at_amqp_connect _ _ b | at_createChannel _ _ b
  | at_connect_settled _ _ b | at_backoff _ b => b = true
  | thrown _ => False
  | _ => True
  end.

(** An invocation of [connect] with [retryOnFail = true] between two
    attempts on a broker that refuses connections. *)
Definition refused (p : Point) : Prop :=
  match p with
  | at_amqp_connect _ _ b | at_connect_settled (Throw _) _ b
  | at_backoff _ b => b = true
  | _ => False
  end.

(** The instance a successful [connect] leaves behind. *)
Definition connected_instance (url : string) (ch : RabbitMQClient.Channel)
  : RabbitMQClient.Instance :=
  RabbitMQClient.onConnectionLost handleConnectionLost_callback
    (RabbitMQClient.connect_channel_created ch (RabbitMQClient.new url)).

(** A broker that connects but refuses the first instance its channel. *)
Definition channel_up_later : Ref → Error + RabbitMQClient.Channel :=
  λ r, match r with
       | O => inl (new_Error "Channel limit reached")
       | _ => inr (200 + r)%nat
       end.

End RabbitMQConnectionMore.

(* ===================================================================== *)
(** * Properties *)
(* ===================================================================== *)

(** ** The transport client *)

Module RabbitMQClientFacts.

Import RabbitMQClient.

Section Facts.

Variable rejects : list Call → Call → option Error.
Variable Message : Type.
Variable JSON_stringify : Message → string.

Local Abbreviation publish := (publish rejects Message JSON_stringify).
Local Abbreviation sendToQueue :=
  (sendToQueue rejects Message JSON_stringify).
Local Abbreviation close := (close rejects).
Local Abbreviation await := (await rejects).

Lemma await_cases c s :
  (await c s = (Ok tt, add_call c s) ∧ rejects (calls s) c = None) ∨
  (∃ e, await c s = (Throw e, add_call c s) ∧ rejects (calls s) c = Some e).
Proof.
  unfold RabbitMQClient.await. destruct (rejects (calls s) c) as [e|]; eauto.
Qed.

Lemma on_send_error_calls e s :
  calls (on_send_error e s).2 = calls s ∧ (on_send_error e s).1 = Throw e.
Proof.
  unfold on_send_error, bind, when, modify, throw, ret.
  destruct (_ || _); simpl; auto.
Qed.

(** Reading a key of the merged options. *)
Lemma over_default {A} (d o : Field A) :
  over d o = if hasOwnProperty o then o else d.
Proof. by destruct o. Qed.

(** The delayed path of [sendToQueue] reads the caller's headers; the
    result is that of reading the merged ones. *)
Lemma delayed_headers_merged queue options :
  (if hasOwnProperty (headers options)
   then {["x-delay" := header_of_number (read (delay (mergedOptions queue options)))]}
          ∪ spread_headers (read (headers options))
   else {["x-delay" := header_of_number (read (delay (mergedOptions queue options)))]})
  = <["x-delay" := header_of_number (read (delay (mergedOptions queue options)))]>
      (spread_headers (read (headers (mergedOptions queue options)))).
Proof.
  unfold mergedOptions, spread; simpl.
  destruct (headers options) as [|h]; simpl.
  - by rewrite insert_empty.
  - by rewrite insert_union_singleton_l.
Qed.

Lemma delay_is_positive_spec merged :
  delay_is_positive merged =
  match read (delay merged) with
  | Some d => (0 <? d)%Z
  | None => false
  end.
Proof.
  unfold delay_is_positive. destruct (read (delay merged)) as [d|]; [|done].
  destruct (Z.ltb_spec 0 d), (Z.eqb_spec d 0), (Z.gtb_spec d 0); simpl; lia.
Qed.

Lemma try_catch_send_calls (m : M unit) s :
  calls (try_catch m on_send_error s).2 = calls (m s).2.
Proof.
  unfold try_catch. destruct (m s) as [[[]|e] s']; [done|].
  apply on_send_error_calls.
Qed.

Lemma try_catch_ok {A} (m : M A) h s a s' :
  m s = (Ok a, s') → try_catch m h s = (Ok a, s').
Proof. unfold try_catch. by intros ->. Qed.

(** Whatever the transport answers, awaited calls are made in order, up
    to the first one that is rejected. *)
Lemma awaits_prefix l s :
  ∃ n, (n ≤ length l)%nat ∧ (l ≠ [] → 1 ≤ n)%nat ∧
       calls (awaits rejects l s).2 = calls s ++ take n l.
Proof.
  revert s. induction l as [|c l IH]; intros s.
  - exists 0%nat. simpl. rewrite app_nil_r. repeat split; [lia|done].
  - destruct l as [|c' l].
    + exists 1%nat. simpl.
      destruct (await_cases c s) as [[E _]|[e [E _]]]; rewrite E;
        repeat split; auto.
    + change (awaits rejects (c :: c' :: l))
        with (bind (await c) (λ _, awaits rejects (c' :: l))).
      unfold bind.
      destruct (await_cases c s) as [[E _]|[e [E _]]]; rewrite E.
      * destruct (IH (add_call c s)) as (n & Hn & _ & Hc).
        exists (S n). rewrite Hc. simpl in *.
        rewrite <- app_assoc. repeat split; auto; lia.
      * exists 1%nat. simpl. repeat split; auto; lia.
Qed.

(** When no call is rejected, all of them are made and nothing else
    changes. *)
Lemma awaits_accepted l s :
  (∀ h c, rejects h c = None) →
  awaits rejects l s =
  (Ok tt, {| this := this s; connection := connection s;
             calls := calls s ++ l |}).
Proof.
  intros Hacc. revert s. induction l as [|c l IH]; intros s.
  - simpl. unfold ret. rewrite app_nil_r. by destruct s.
  - destruct l as [|c' l].
    + simpl. unfold RabbitMQClient.await. by rewrite Hacc.
    + change (awaits rejects (c :: c' :: l))
        with (bind (await c) (λ _, awaits rejects (c' :: l))).
      unfold bind, RabbitMQClient.await at 1. rewrite Hacc, IH. simpl.
      by rewrite <- app_assoc.
Qed.

Lemma awaits_cons c c' l s :
  awaits rejects (c :: c' :: l) s =
  match rejects (calls s) c with
  | None => awaits rejects (c' :: l) (add_call c s)
  | Some e => (Throw e, add_call c s)
  end.
Proof.
  change (awaits rejects (c :: c' :: l))
    with (bind (await c) (λ _, awaits rejects (c' :: l))).
  unfold bind, RabbitMQClient.await at 1.
  by destruct (rejects (calls s) c).
Qed.

(** How awaited calls end: on a normal return all of them were made, in
    order; an error is the one the transport raised for the last call
    made. *)
Lemma awaits_outcome l s :
  match (awaits rejects l s).1 with
  | Ok _ => calls (awaits rejects l s).2 = calls s ++ l
  | Throw e =>
      ∃ made c rest,
        l = made ++ c :: rest ∧
        calls (awaits rejects l s).2 = calls s ++ made ++ [c] ∧
        rejects (calls s ++ made) c = Some e
  end.
Proof.
  revert s. induction l as [|c l IH]; intros s.
  - simpl. by rewrite app_nil_r.
  - destruct l as [|c' l].
    + simpl. unfold RabbitMQClient.await.
      destruct (rejects (calls s) c) as [e|] eqn:E; simpl; [|done].
      exists [], c, []. by rewrite app_nil_r.
    + rewrite awaits_cons.
      destruct (rejects (calls s) c) as [e|] eqn:E.
      * simpl. exists [], c, (c' :: l). by rewrite app_nil_r.
      * specialize (IH (add_call c s)).
        destruct (awaits rejects (c' :: l) (add_call c s)) as [[[]|e] s1];
          cbn [fst snd] in *.
        -- rewrite IH. cbn [calls add_call]. by rewrite <- app_assoc.
        -- destruct IH as (made & c0 & rest & Hl & Hc & Hr).
           exists (c :: made), c0, rest. rewrite Hl, Hc.
           cbn [calls add_call] in *. rewrite <- app_assoc in Hr.
           by rewrite <- app_assoc.
Qed.

Lemma try_catch_send_result (m : M unit) s :
  (try_catch m on_send_error s).1 = (m s).1.
Proof.
  unfold try_catch. destruct (m s) as [[[]|e] s']; [done|].
  apply on_send_error_calls.
Qed.

(** The body of [publish] awaits its route. *)
Lemma publish_awaits ch queue message options s :
  channel (this s) = Some ch →
  publish queue message options s =
  try_catch
    (awaits rejects
       (publish_route ch queue (Buffer_from (JSON_stringify message))
          (mergedOptions queue options)))
    on_send_error s.
Proof.
  intros Hch. unfold RabbitMQClient.publish, bind at 1, get.
  by rewrite Hch.
Qed.

(** The body of [sendToQueue] awaits its route. *)
Lemma sendToQueue_awaits ch queue message options s :
  channel (this s) = Some ch →
  sendToQueue queue message options s =
  try_catch
    (awaits rejects
       (sendToQueue_route ch queue (Buffer_from (JSON_stringify message))
          (mergedOptions queue options) options))
    on_send_error s.
Proof.
  intros Hch. unfold RabbitMQClient.sendToQueue, bind at 1, get.
  rewrite Hch.
  unfold sendToQueue_route, publish_through_delayed_exchange,
    bind_to_delayed_exchange, declare_delayed_exchange, delayed_exchange.
  rewrite delay_is_positive_spec. cbv zeta.
  rewrite delayed_headers_merged.
  destruct (read (delay (mergedOptions queue options))) as [d|];
    [destruct (0 <? d)%Z|]; done.
Qed.

(** The route of [sendToQueue], by the condition the code tests. *)
Lemma sendToQueue_route_by_condition ch queue payload merged options :
  sendToQueue_route ch queue payload merged options =
  assertQueue ch queue true ::
  if delay_is_positive merged
  then [ declare_delayed_exchange ch merged;
         bind_to_delayed_exchange ch queue merged;
         publish_through_delayed_exchange ch payload merged ]
  else [ channel_sendToQueue ch queue payload options ].
Proof.
  unfold sendToQueue_route. rewrite delay_is_positive_spec.
  by destruct (read (delay merged)).
Qed.

(** C4, as amended: [publish] and [sendToQueue] both encode the message
    with JSON and build [mergedOptions], in which each key the caller
    supplies wins over the default ([Exchange_<queue>], the queue as
    routing key, delay 0, [direct], no headers).  With the channel open,
    what either operation does to the transport is fixed by these: on a
    normal return the transport has received the whole route, on an error
    the route up to the call that the transport rejected with that error,
    and when the transport accepts every call the return is normal.  In
    the route of [publish] and in the delayed route of [sendToQueue] the
    exchange, routing key, exchange type, delay and headers are those of
    the merged options and the content is the encoded message; the direct
    route of [sendToQueue], taken when the merged delay is not positive,
    hands the encoded message and the caller's options, unmerged, to the
    transport. *)
Theorem options_merged_payload_encoded queue message options ch s :
  channel (this s) = Some ch →
  let merged := mergedOptions queue options in
  let payload := Buffer_from (JSON_stringify message) in
  let delayed := template (read (exchange merged)) +:+ "-delayed" in
  let key := read (routingKey merged) in
  let head :=
    <["x-delay" := header_of_number (read (delay merged))]>
      (spread_headers (read (headers merged))) in
  let published :=
    [assertExchange ch delayed "x-delayed-message" true
       (read (exchangeType merged));
     assertQueue ch queue true;
     bindQueue ch queue delayed key;
     channel_publish ch delayed key payload head] in
  let sent :=
    assertQueue ch queue true ::
    if delay_is_positive merged
    then [assertExchange ch delayed "x-delayed-message" true
            (read (exchangeType merged));
          bindQueue ch queue delayed key;
          channel_publish ch delayed key payload head]
    else [channel_sendToQueue ch queue payload options] in
  exchange merged =
    (if hasOwnProperty (exchange options) then exchange options
     else Present (Some ("Exchange_" +:+ queue))) ∧
  routingKey merged =
    (if hasOwnProperty (routingKey options) then routingKey options
     else Present (Some queue)) ∧
  delay merged =
    (if hasOwnProperty (delay options) then delay options
     else Present (Some 0%Z)) ∧
  exchangeType merged =
    (if hasOwnProperty (exchangeType options) then exchangeType options
     else Present (Some direct)) ∧
  headers merged =
    (if hasOwnProperty (headers options) then headers options
     else Present (Some ∅)) ∧
  persistent merged = persistent options ∧
  match (publish queue message options s).1 with
  | Ok _ => calls (publish queue message options s).2 = calls s ++ published
  | Throw e =>
      ∃ made c rest,
        published = made ++ c :: rest ∧
        calls (publish queue message options s).2 = calls s ++ made ++ [c] ∧
        rejects (calls s ++ made) c = Some e
  end ∧
  match (sendToQueue queue message options s).1 with
  | Ok _ => calls (sendToQueue queue message options s).2 = calls s ++ sent
  | Throw e =>
      ∃ made c rest,
        sent = made ++ c :: rest ∧
        calls (sendToQueue queue message options s).2 = calls s ++ made ++ [c] ∧
        rejects (calls s ++ made) c = Some e
  end ∧
  ((∀ h c, rejects h c = None) →
   (publish queue message options s).1 = Ok tt ∧
   (sendToQueue queue message options s).1 = Ok tt).
Proof.
  intros Hch merged payload delayed key head published sent.
  do 5 (split; [unfold merged, mergedOptions, spread; simpl;
                apply over_default|]).
  split.
  { unfold merged, mergedOptions, spread; simpl.
    by destruct (persistent options). }
  split; [|split].
  - rewrite (publish_awaits ch) by done.
    rewrite try_catch_send_result, try_catch_send_calls.
    exact (awaits_outcome (publish_route ch queue payload merged) s).
  - rewrite (sendToQueue_awaits ch) by done.
    rewrite try_catch_send_result, try_catch_send_calls.
    rewrite sendToQueue_route_by_condition.
    exact (awaits_outcome _ s).
  - intros Hacc.
    rewrite (publish_awaits ch), (sendToQueue_awaits ch) by done.
    rewrite !try_catch_send_result, !awaits_accepted by done. done.
Qed.

(** C5: with an open channel, [publish] always starts by asserting the
    durable delayed exchange [<exchange>-delayed] and, when the transport
    accepts its calls, asserts the queue durable, binds it to that
    exchange and publishes through it with [x-delay] set to the effective
    delay; [sendToQueue] always starts by asserting the queue durable and
    then goes through the delayed exchange exactly when the effective
    delay is greater than 0, and otherwise sends the encoded message
    directly to the queue. *)
Theorem publish_delayed_sendToQueue_conditional queue message options ch s :
  channel (this s) = Some ch →
  let merged := mergedOptions queue options in
  let delayed := template (read (exchange merged)) +:+ "-delayed" in
  let key := read (routingKey merged) in
  let payload := Buffer_from (JSON_stringify message) in
  let head :=
    <["x-delay" := header_of_number (read (delay merged))]>
      (spread_headers (read (headers merged))) in
  let through_exchange :=
    [assertExchange ch delayed "x-delayed-message" true
       (read (exchangeType merged));
     bindQueue ch queue delayed key;
     channel_publish ch delayed key payload head] in
  (∃ rest, calls (publish queue message options s).2 =
           calls s ++
           assertExchange ch delayed "x-delayed-message" true
             (read (exchangeType merged)) :: rest) ∧
  (∃ rest, calls (sendToQueue queue message options s).2 =
           calls s ++ assertQueue ch queue true :: rest) ∧
  head !! "x-delay" = Some (header_of_number (read (delay merged))) ∧
  ((∀ h c, rejects h c = None) →
   publish queue message options s =
     (Ok tt,
      {| this := this s; connection := connection s;
         calls := calls s ++
           [assertExchange ch delayed "x-delayed-message" true
              (read (exchangeType merged));
            assertQueue ch queue true;
            bindQueue ch queue delayed key;
            channel_publish ch delayed key payload head] |}) ∧
   sendToQueue queue message options s =
     (Ok tt,
      {| this := this s; connection := connection s;
         calls := calls s ++
           assertQueue ch queue true ::
           match read (delay merged) with
           | Some d =>
               if bool_decide (0 < d)%Z then through_exchange
               else [channel_sendToQueue ch queue payload options]
           | None => [channel_sendToQueue ch queue payload options]
           end |})).
Proof.
  intros Hch merged delayed key payload head through_exchange.
  split; [|split; [|split]].
  - destruct (awaits_prefix (publish_route ch queue payload merged) s)
      as (n & _ & Hn & Hc). unfold payload, merged in Hc.
    rewrite (publish_awaits ch), try_catch_send_calls, Hc by done.
    destruct n as [|n]; [specialize (Hn ltac:(done)); lia|].
    simpl. eauto.
  - destruct (awaits_prefix
                (sendToQueue_route ch queue payload merged options) s)
      as (n & _ & Hn & Hc). unfold payload, merged in Hc.
    rewrite (sendToQueue_awaits ch), try_catch_send_calls, Hc by done.
    destruct n as [|n]; [specialize (Hn ltac:(done)); lia|].
    simpl. eauto.
  - apply lookup_insert_eq.
  - intros Hacc. split.
    + rewrite (publish_awaits ch) by done.
      apply try_catch_ok. by rewrite awaits_accepted.
    + rewrite (sendToQueue_awaits ch) by done.
      apply try_catch_ok. rewrite awaits_accepted by done.
      unfold sendToQueue_route, declare_delayed_exchange,
        bind_to_delayed_exchange, publish_through_delayed_exchange.
      subst through_exchange head key delayed payload merged.
      destruct (read (delay (mergedOptions queue options))) as [d|];
        [|done].
      destruct (Z.ltb_spec 0 d);
        [rewrite bool_decide_eq_true_2 by done
        |rewrite bool_decide_eq_false_2 by lia]; done.
Qed.

(** C9, as amended: [close()] closes the channel, then the connection,
    skipping whichever is already null (with both null it makes no call
    and cannot fail); when the transport accepts the calls it returns
    normally with the channel and the class-level connection null and
    the connected flag false, while the stored connection-lost callback
    (and the url) are left as they were. *)
Theorem close_clears_channel_connection_flag s :
  (channel (this s) = None → connection s = None →
   close s = (Ok tt, set_isConnected false s)) ∧
  ((∀ h c, rejects h c = None) →
   close s =
   (Ok tt,
    {| this := {| url := url (this s); channel := None;
                  isConnected := false;
                  connectionLostCallback := connectionLostCallback (this s) |};
       connection := None;
       calls := calls s ++
         match channel (this s) with
         | Some ch => [channel_close ch]
         | None => []
         end ++
         match connection s with
         | Some c => [connection_close c]
         | None => []
         end |})).
Proof.
  split.
  - destruct s as [[u ch co cb] cn cl]; simpl. by intros -> ->.
  - intros Hacc. destruct s as [[u ch co cb] cn cl].
    unfold RabbitMQClient.close, try_catch, bind, get, modify,
      RabbitMQClient.await, ret; simpl.
    destruct ch as [ch|], cn as [cn|]; simpl; rewrite ?Hacc; simpl;
      rewrite ?Hacc; simpl;
      unfold set_isConnected, set_connection, set_channel, add_call; simpl;
      rewrite <- ?app_assoc, ?app_nil_r; done.
Qed.

End Facts.

(** The amended C4 at [publish("orders", {}, {})] and at
    [sendToQueue("orders", {}, {})] on a transport that accepts every
    call. *)
Lemma options_merged_payload_encoded_witness :
  channel (this open_client) = Some 1%nat ∧
  calls (publish accepting string id "orders" "{}" no_options
           open_client).2 =
    [assertExchange 1%nat "Exchange_orders-delayed" "x-delayed-message" true
       (Some direct);
     assertQueue 1%nat "orders" true;
     bindQueue 1%nat "orders" "Exchange_orders-delayed" (Some "orders");
     channel_publish 1%nat "Exchange_orders-delayed" (Some "orders")
       (Buffer_from "{}") (<["x-delay" := HNum 0]> ∅)] ∧
  calls (sendToQueue accepting string id "orders" "{}" no_options
           open_client).2 =
    [assertQueue 1%nat "orders" true;
     channel_sendToQueue 1%nat "orders" (Buffer_from "{}") no_options].
Proof.
  split; [reflexivity|].
  pose proof (options_merged_payload_encoded accepting string id
                "orders" "{}" no_options 1%nat open_client eq_refl) as H.
  cbv zeta in H.
  destruct H as (_ & _ & _ & _ & _ & _ & Hp & Hs & Hacc).
  destruct (Hacc (λ _ _, eq_refl)) as [Hpo Hso].
  rewrite Hpo in Hp. rewrite Hso in Hs.
  split; [exact Hp | exact Hs].
Defined.

(** C4 as stated fails on the direct path of [sendToQueue]: for
    [sendToQueue("orders", {}, {})] the transport receives the caller's
    [{}], which is not the merged options (these hold the five defaults). *)
Lemma sendToQueue_direct_path_sends_unmerged_options :
  calls (sendToQueue accepting string id "orders" "{}" no_options
           open_client).2 =
    [assertQueue 1%nat "orders" true;
     channel_sendToQueue 1%nat "orders" (Buffer_from "{}") no_options] ∧
  no_options ≠ mergedOptions "orders" no_options.
Proof. split; [reflexivity | discriminate]. Qed.

(** C5 at [publish("orders", {}, {})] and at [sendToQueue] of the same
    message with [{delay: 500}] and with [{}]. *)
Lemma publish_delayed_sendToQueue_conditional_witness :
  channel (this open_client) = Some 1%nat ∧
  calls (publish accepting string id "orders" "{}" no_options
           open_client).2 =
    [assertExchange 1%nat "Exchange_orders-delayed" "x-delayed-message" true
       (Some direct);
     assertQueue 1%nat "orders" true;
     bindQueue 1%nat "orders" "Exchange_orders-delayed" (Some "orders");
     channel_publish 1%nat "Exchange_orders-delayed" (Some "orders")
       (Buffer_from "{}") (<["x-delay" := HNum 0]> ∅)] ∧
  calls (sendToQueue accepting string id "orders" "{}"
           (mkOptions Absent Absent Absent (Present (Some 500%Z)) Absent Absent)
           open_client).2 =
    [assertQueue 1%nat "orders" true;
     assertExchange 1%nat "Exchange_orders-delayed" "x-delayed-message" true
       (Some direct);
     bindQueue 1%nat "orders" "Exchange_orders-delayed" (Some "orders");
     channel_publish 1%nat "Exchange_orders-delayed" (Some "orders")
       (Buffer_from "{}") (<["x-delay" := HNum 500]> ∅)] ∧
  calls (sendToQueue accepting string id "orders" "{}" no_options
           open_client).2 =
    [assertQueue 1%nat "orders" true;
     channel_sendToQueue 1%nat "orders" (Buffer_from "{}") no_options].
Proof.
  split; [reflexivity|].
  pose proof (publish_delayed_sendToQueue_conditional accepting string id
                "orders" "{}" no_options 1%nat open_client eq_refl)
    as (_ & _ & _ & H0).
  pose proof (publish_delayed_sendToQueue_conditional accepting string id
                "orders" "{}"
                (mkOptions Absent Absent Absent (Present (Some 500%Z))
                   Absent Absent)
                1%nat open_client eq_refl)
    as (_ & _ & _ & H500).
  destruct (H0 (λ _ _, eq_refl)) as [Hp Hs0].
  destruct (H500 (λ _ _, eq_refl)) as [_ Hs500].
  rewrite Hp, Hs0, Hs500. repeat split.
Defined.

(** The amended C9 on a client that was never connected and on a client
    with an open channel and connection. *)
Lemma close_clears_channel_connection_flag_witness :
  close accepting closed_client = (Ok tt, closed_client) ∧
  close accepting open_client =
  (Ok tt,
   {| this := mkInstance "amqp://broker" None false (Some 0%nat);
      connection := None;
      calls := [channel_close 1%nat; connection_close 2%nat] |}).
Proof.
  split.
  - apply (close_clears_channel_connection_flag accepting closed_client);
      reflexivity.
  - apply (close_clears_channel_connection_flag accepting open_client).
    reflexivity.
Defined.

(** C9 as stated fails on the callback: after a normal return of
    [close()] the stored connection-lost callback is still there. *)
Lemma close_keeps_connectionLostCallback :
  (close accepting open_client).1 = Ok tt ∧
  connectionLostCallback (this (close accepting open_client).2) ≠ None.
Proof. split; [reflexivity | discriminate]. Qed.

End RabbitMQClientFacts.

(** ** The connection manager *)

Module RabbitMQConnectionFacts.

Import RabbitMQConnection.

Section Facts.

Variable amqp_connect : Ref → Error + RabbitMQClient.Connection.
Variable createChannel : Ref → Error + RabbitMQClient.Channel.
Variable consume : ConsumerRef → list Event → option Error.

Local Abbreviation step := (step amqp_connect createChannel consume).
Local Abbreviation run := (run amqp_connect createChannel consume).
Local Abbreviation interleave :=
  (interleave amqp_connect createChannel consume).
Local Abbreviation client_connect_result :=
  (client_connect_result amqp_connect createChannel).

Lemma run_S n w p :
  run (S n) w p = run n (step w p).1 (step w p).2.
Proof. simpl. by destruct (step w p). Qed.

Lemma run_add n m w p :
  run (n + m) w p = run m (run n w p).1 (run n w p).2.
Proof.
  revert w p. induction n as [|n IH]; intros w p; [done|].
  rewrite Nat.add_succ_l, !run_S. apply IH.
Qed.

Lemma run_step n w p w' p' :
  step w p = (w', p') → run (S n) w p = run n w' p'.
Proof. intros H. by rewrite run_S, H. Qed.

Lemma run_returned n w : run n w returned = (w, returned).
Proof. induction n; [done|]. by rewrite run_S. Qed.

Lemma run_thrown n w e : run n w (thrown e) = (w, thrown e).
Proof. induction n; [done|]. by rewrite run_S. Qed.

(** The first run of [connect] when no connect is in flight and the
    client is missing or dead: the url is stored, the flag set and a
    first instance constructed. *)
Lemma step_call_attempt w url retry :
  isConnecting w = false → isConnected w = false →
  step w (at_call url retry) =
  attempt url retry (set_isConnecting true (set_connectionUrl url w)).
Proof.
  intros Hc Hl. unfold RabbitMQConnection.step. rewrite Hc.
  change (isConnected (set_connectionUrl url w)) with (isConnected w).
  by rewrite Hl.
Qed.

(** C6, as amended: when no connect is in flight and a client exists
    that reports a live connection and channel, [connect(url)] returns at
    once; it stores [url] as the connection URL (so nothing at all
    changes when [url] is the stored one) and leaves the client
    reference, the consumer list, both busy flags, the instances and the
    class-level connection as they were; no client is constructed and no
    consumer started. *)
Theorem connect_when_live_only_stores_url w url retry :
  isConnecting w = false → isConnected w = true →
  let w' := (step w (at_call url retry)).1 in
  (step w (at_call url retry)).2 = returned ∧
  connectionUrl w' = url ∧
  rabbitMQClient w' = rabbitMQClient w ∧
  consumers w' = consumers w ∧
  isConnecting w' = isConnecting w ∧
  isReconnecting w' = isReconnecting w ∧
  instances w' = instances w ∧
  connection w' = connection w ∧
  log w' = log w ∧
  (url = connectionUrl w → w' = w).
Proof.
  intros Hc Hl. unfold RabbitMQConnection.step. rewrite Hc.
  change (isConnected (set_connectionUrl url w)) with (isConnected w).
  rewrite Hl. simpl. repeat split; try done.
  intros ->. by destruct w.
Qed.

(** C7: when [connect(url, false)] makes an attempt and the client's
    [connect()] fails with an error, that error is thrown to the caller,
    the client reference is null afterwards and the connecting flag is
    cleared, so that a later [connect] does not wait. *)
Theorem connect_without_retry_propagates w url e :
  isConnecting w = false → isConnected w = false →
  client_connect_result w (length (instances w)) = Throw e →
  ∃ n w',
    run n w (at_call url false) = (w', thrown e) ∧
    rabbitMQClient w' = None ∧
    isConnecting w' = false ∧
    ∀ url' retry', (step w' (at_call url' retry')).2 ≠ at_poll.
Proof.
  intros Hc Hl Hfail.
  assert (Hnext : ∀ w', isConnecting w' = false → rabbitMQClient w' = None →
            ∀ url' retry', (step w' (at_call url' retry')).2 ≠ at_poll).
  { intros w' Hc' Hn' url' retry'. unfold RabbitMQConnection.step.
    rewrite Hc'. unfold isConnected. cbn [rabbitMQClient set_connectionUrl].
    rewrite Hn'. unfold attempt. cbn [snd].
    by destruct (connection _). }
  pose (w1 := construct url (set_isConnecting true (set_connectionUrl url w))).
  pose (w2 := set_isConnecting false (set_rabbitMQClient None w1)).
  pose (r := length (instances w)).
  assert (Hcall : step w (at_call url false) =
            (w1, match connection w with
                 | None => at_amqp_connect r url false
                 | Some _ => at_createChannel r url false
                 end)).
  { by rewrite step_call_attempt. }
  unfold RabbitMQConnection.client_connect_result in Hfail. fold r in Hfail.
  destruct (connection w) as [c|] eqn:Hconn.
  - destruct (createChannel r) as [e'|ch] eqn:Hch; [|done].
    injection Hfail as ->.
    exists 3%nat, w2. split; [|by auto].
    rewrite (run_step _ _ _ _ _ Hcall).
    rewrite (run_step 1 _ _ w1 (at_connect_settled (Throw e) url false))
      by (unfold RabbitMQConnection.step; by rewrite Hch).
    by rewrite (run_step 0 _ _ w2 (thrown e)).
  - destruct (amqp_connect r) as [e'|c] eqn:Ham.
    + injection Hfail as ->.
      exists 3%nat, w2. split; [|by auto].
      rewrite (run_step _ _ _ _ _ Hcall).
      rewrite (run_step 1 _ _ w1 (at_connect_settled (Throw e) url false))
        by (unfold RabbitMQConnection.step; by rewrite Ham).
      by rewrite (run_step 0 _ _ w2 (thrown e)).
    + destruct (createChannel r) as [e'|ch] eqn:Hch; [|done].
      injection Hfail as ->.
      pose (w3 := set_isConnecting false
                    (set_rabbitMQClient None
                       (set_connection (Some (c, r)) w1))).
      exists 4%nat, w3. split; [|by auto].
      rewrite (run_step _ _ _ _ _ Hcall).
      rewrite (run_step 2 _ _ (set_connection (Some (c, r)) w1)
                 (at_createChannel r url false))
        by (unfold RabbitMQConnection.step; by rewrite Ham).
      rewrite (run_step 1 _ _ (set_connection (Some (c, r)) w1)
                 (at_connect_settled (Throw e) url false))
        by (unfold RabbitMQConnection.step; by rewrite Hch).
      by rewrite (run_step 0 _ _ w3 (thrown e)).
Qed.

(** *** Starting the consumers *)

Lemma consume_calls_add e w :
  consume_calls (log (add_event e w)) =
  consume_calls (log w) ++
  match e with consume_called c => [c] | _ => [] end.
Proof.
  unfold consume_calls. cbn [log add_event]. rewrite omap_app.
  by destruct e.
Qed.

Lemma startConsumers_loop_runs cs w :
  ∃ w', run (length cs) (startConsumers_loop cs w).1 (startConsumers_loop cs w).2
        = (w', returned) ∧
        consume_calls (log w') = consume_calls (log w) ++ cs.
Proof.
  revert w. induction cs as [|c rest IH]; intros w.
  - exists w. by rewrite app_nil_r.
  - cbn [startConsumers_loop fst snd length]. rewrite run_S.
    unfold RabbitMQConnection.step.
    destruct (consume c (log (add_event (consume_called c) w))) as [e|].
    + destruct (IH (add_event (consumer_failed c e)
                      (add_event (consume_called c) w))) as (w' & Hr & Hl).
      exists w'. split; [done|]. rewrite Hl, !consume_calls_add.
      by rewrite app_nil_r, <- app_assoc.
    + destruct (IH (add_event (consumer_started c)
                      (add_event (consume_called c) w))) as (w' & Hr & Hl).
      exists w'. split; [done|]. rewrite Hl, !consume_calls_add.
      by rewrite app_nil_r, <- app_assoc.
Qed.

Lemma after_loop_startConsumers_loop w :
  after_loop w = startConsumers_loop (consumers w) (set_isConnecting false w).
Proof.
  unfold after_loop, startConsumers. cbn [consumers set_isConnecting].
  by destruct (consumers w).
Qed.

(** What follows a successful [connect()] of the client. *)
Lemma step_connect_resolved w r url retry :
  rabbitMQClient w = Some r →
  step w (at_connect_settled (Ok tt) url retry) =
  after_loop
    (update_instance r
       (RabbitMQClient.onConnectionLost handleConnectionLost_callback) w).
Proof. intros H. unfold RabbitMQConnection.step. by rewrite H. Qed.

(** Once past the loop an invocation stays there and leaves the
    connecting flag alone. *)
Lemma startConsumers_loop_past cs w :
  isConnecting (startConsumers_loop cs w).1 = isConnecting w ∧
  past_loop (startConsumers_loop cs w).2 = true ∧
  ∀ e, (startConsumers_loop cs w).2 ≠ thrown e.
Proof. by destruct cs. Qed.

Lemma step_consume_not_thrown w c rest e :
  (step w (at_consume c rest)).2 ≠ thrown e.
Proof.
  unfold RabbitMQConnection.step.
  destruct (consume c (log w)); apply startConsumers_loop_past.
Qed.

Lemma run_never_throws n w p :
  (∀ e, p ≠ thrown e) → past_loop p = true →
  ∀ e, (run n w p).2 ≠ thrown e.
Proof.
  revert w p. induction n as [|n IH]; intros w p Hp Hpast e; [by apply Hp|].
  rewrite run_S. destruct p; try done.
  - apply IH.
    + intros e'. apply step_consume_not_thrown.
    + unfold RabbitMQConnection.step.
      destruct (consume current (log w)); apply startConsumers_loop_past.
  - by apply IH.
  - by destruct (Hp e0).
Qed.

(** C8: [startConsumers], and with it the step that follows a successful
    connect (the connecting flag is cleared, then the consumers are started
    if there are any), calls each registered consumer's [consume()] once, in
    registration order, whether or not some of these calls fail; it then
    returns, and at no point does it end with an error thrown. *)
Theorem startConsumers_each_once_in_order w :
  (∃ w', run (length (consumers w)) (startConsumers w).1 (startConsumers w).2
         = (w', returned) ∧
         consume_calls (log w') = consume_calls (log w) ++ consumers w) ∧
  (∀ n e, (run n (startConsumers w).1 (startConsumers w).2).2 ≠ thrown e) ∧
  (∃ w', run (length (consumers w)) (after_loop w).1 (after_loop w).2
         = (w', returned) ∧
         consume_calls (log w') = consume_calls (log w) ++ consumers w) ∧
  (∀ n e, (run n (after_loop w).1 (after_loop w).2).2 ≠ thrown e).
Proof.
  rewrite after_loop_startConsumers_loop. unfold startConsumers.
  split; [|split; [|split]].
  - apply startConsumers_loop_runs.
  - intros n e. apply run_never_throws; apply startConsumers_loop_past.
  - apply (startConsumers_loop_runs (consumers w) (set_isConnecting false w)).
  - intros n e. apply run_never_throws; apply startConsumers_loop_past.
Qed.

(** *** Two calls of [connect] in one event loop *)

Lemma isConnecting_update_instance r f w :
  isConnecting (update_instance r f w) = isConnecting w.
Proof. unfold update_instance. by destruct (instances w !! r). Qed.

Lemma rabbitMQClient_update_instance r f w :
  rabbitMQClient (update_instance r f w) = rabbitMQClient w.
Proof. unfold update_instance. by destruct (instances w !! r). Qed.

Lemma log_update_instance r f w :
  log (update_instance r f w) = log w.
Proof. unfold update_instance. by destruct (instances w !! r). Qed.

Lemma consumers_update_instance r f w :
  consumers (update_instance r f w) = consumers w.
Proof. unfold update_instance. by destruct (instances w !! r). Qed.

Lemma after_loop_past w :
  isConnecting (after_loop w).1 = false ∧ past_loop (after_loop w).2 = true.
Proof.
  rewrite after_loop_startConsumers_loop.
  destruct (startConsumers_loop_past (consumers w) (set_isConnecting false w))
    as (-> & -> & _). done.
Qed.

Lemma on_attempt_error_follows e url retry w :
  isConnecting w = true →
  flag_follows (on_attempt_error e url retry w).1
               (on_attempt_error e url retry w).2.
Proof.
  intros Hc. unfold on_attempt_error.
  destruct retry; cbn [negb fst snd]; [left | right]; done.
Qed.

(** The connecting flag is set exactly while the invocation that set it
    is inside its loop. *)
Lemma flag_follows_step w a :
  flag_follows w a → flag_follows (step w a).1 (step w a).2.
Proof.
  intros [[Hc Ha]|[Hc Ha]]; destruct a; try done;
    unfold RabbitMQConnection.step.
  - destruct (amqp_connect r); left; done.
  - destruct (createChannel r); left; [done|]. cbn [fst snd].
    by rewrite isConnecting_update_instance.
  - destruct result as [[]|e].
    + destruct (rabbitMQClient w) as [r|].
      * right. apply after_loop_past.
      * by apply on_attempt_error_follows.
    + by apply on_attempt_error_follows.
  - left. unfold attempt. cbn [fst snd]. split; [done|].
    by destruct (connection w).
  - right.
    destruct (consume current (log w));
      match goal with
      | |- context [startConsumers_loop ?cs ?w'] =>
          destruct (startConsumers_loop_past cs w') as (-> & -> & _)
      end; done.
  - by right.
  - by right.
Qed.

Lemma flag_follows_run n w a :
  flag_follows w a → flag_follows (run n w a).1 (run n w a).2.
Proof.
  revert w a. induction n as [|n IH]; intros w a H; [done|].
  rewrite run_S. by apply IH, flag_follows_step.
Qed.

Lemma flag_follows_call w url retry :
  isConnecting w = false → isConnected w = false →
  flag_follows (step w (at_call url retry)).1 (step w (at_call url retry)).2.
Proof.
  intros Hc Hl. rewrite step_call_attempt by done. left.
  unfold attempt. cbn [fst snd]. split; [done|].
  by destruct (connection _).
Qed.

(** A polling or returned caller changes nothing. *)
Lemma waiting_step w b :
  waiting w b → (step w b).1 = w ∧ waiting w (step w b).2.
Proof.
  intros [->|[-> Hc]]; unfold RabbitMQConnection.step.
  - destruct (isConnecting w) eqn:Hc; split; try done; [by left|by right].
  - split; [done|by right].
Qed.

Lemma waiting_after_first w a b :
  flag_follows w a → waiting w b → waiting (step w a).1 b.
Proof.
  intros Hf [->|[-> Hc]]; [by left|]. right. split; [done|].
  destruct (flag_follows_step w a Hf) as [[Hc' Ha']|[Hc' _]]; [|done].
  destruct Hf as [[Hc0 _]|[_ Ha]]; [congruence|].
  destruct a; try done; unfold RabbitMQConnection.step in *.
  destruct (consume current (log w));
    match type of Hc' with
    | context [startConsumers_loop ?cs ?w'] =>
        destruct (startConsumers_loop_past cs w') as (E & _ & _);
        rewrite E in Hc'
    end; cbn in Hc'; congruence.
Qed.

Lemma interleave_first schedule w a b w1 a1 :
  step w a = (w1, a1) →
  interleave (first :: schedule) (w, a, b) = interleave schedule (w1, a1, b).
Proof.
  intros H. unfold RabbitMQConnection.interleave.
  cbn [fold_left step_pair]. by rewrite H.
Qed.

Lemma interleave_second schedule w a b w1 b1 :
  step w b = (w1, b1) →
  interleave (second :: schedule) (w, a, b) = interleave schedule (w1, a, b1).
Proof.
  intros H. unfold RabbitMQConnection.interleave.
  cbn [fold_left step_pair]. by rewrite H.
Qed.

(** The joint run of a caller inside its sequence and of a waiting
    second caller is, for the manager and the first caller, the run of
    the first caller alone. *)
Lemma interleave_waiting schedule w a b :
  flag_follows w a → waiting w b →
  ((interleave schedule (w, a, b)).1.1, (interleave schedule (w, a, b)).1.2)
    = run (turns_of_first schedule) w a ∧
  flag_follows (interleave schedule (w, a, b)).1.1
               (interleave schedule (w, a, b)).1.2 ∧
  waiting (interleave schedule (w, a, b)).1.1
          (interleave schedule (w, a, b)).2.
Proof.
  revert w a b. induction schedule as [|who schedule IH]; intros w a b Hf Hw.
  - done.
  - destruct who.
    + pose proof (flag_follows_step w a Hf) as Hf'.
      pose proof (waiting_after_first w a b Hf Hw) as Hw'.
      destruct (step w a) as [w1 a1] eqn:Hs.
      rewrite (interleave_first _ _ _ _ _ _ Hs).
      destruct (IH w1 a1 b Hf' Hw') as (Hr & Hf2 & Hw2).
      unfold turns_of_first. cbn [List.filter length].
      by rewrite (run_step _ _ _ _ _ Hs).
    + destruct (waiting_step w b Hw) as [Hsame Hw'].
      destruct (step w b) as [w1 b1] eqn:Hs. cbn [fst snd] in *. subst w1.
      rewrite (interleave_second _ _ _ _ _ _ Hs).
      by destruct (IH w a b1 Hf Hw') as (Hr & Hf2 & Hw2).
Qed.

Lemma constructions_add e w :
  constructions (log (add_event e w)) =
  (constructions (log w) +
   match e with constructed _ _ => 1 | _ => 0 end)%nat.
Proof.
  unfold constructions. cbn [log add_event].
  rewrite omap_app, length_app. by destruct e.
Qed.

Lemma constructions_startConsumers_loop cs w :
  constructions (log (startConsumers_loop cs w).1) = constructions (log w).
Proof.
  destruct cs; [done|]. cbn [startConsumers_loop fst].
  rewrite constructions_add. lia.
Qed.

(** An attempt that succeeds, and what follows it, constructs no further
    instance. *)
Lemma succeeding_step r w a :
  succeeding amqp_connect createChannel r w a →
  succeeding amqp_connect createChannel r (step w a).1 (step w a).2 ∧
  constructions (log (step w a).1) = constructions (log w).
Proof.
  destruct a; try done; unfold RabbitMQConnection.step; cbn [succeeding].
  - intros (Hr & -> & [c Hc] & Hch). rewrite Hc. done.
  - intros (Hr & -> & [ch Hch]). rewrite Hch. cbn [fst snd succeeding].
    by rewrite rabbitMQClient_update_instance, log_update_instance.
  - destruct result as [[]|e]; [|done]. intros ->.
    rewrite after_loop_startConsumers_loop. split.
    + pose proof (startConsumers_loop_past
                    (consumers (update_instance r
                       (RabbitMQClient.onConnectionLost
                          handleConnectionLost_callback) w))
                    (set_isConnecting false
                       (update_instance r
                          (RabbitMQClient.onConnectionLost
                             handleConnectionLost_callback) w)))
        as (_ & Hp & _).
      destruct (startConsumers_loop _ _) as [w1 [| | | | | | | |]]; done.
    + rewrite constructions_startConsumers_loop. cbn [log set_isConnecting].
      by rewrite log_update_instance.
  - intros _.
    destruct (consume current (log w)); split;
      try (rewrite constructions_startConsumers_loop, constructions_add; lia);
      match goal with
      | |- context [startConsumers_loop ?cs ?w'] =>
          pose proof (startConsumers_loop_past cs w') as (_ & Hp & _);
          destruct (startConsumers_loop cs w') as [w1 [| | | | | | | |]]; done
      end.
Qed.

Lemma succeeding_run r n w a :
  succeeding amqp_connect createChannel r w a →
  constructions (log (run n w a).1) = constructions (log w).
Proof.
  revert w a. induction n as [|n IH]; intros w a H; [done|].
  rewrite run_S. destruct (succeeding_step r w a H) as [H' <-].
  by apply IH.
Qed.

(** When the broker lets the first attempt succeed, exactly one instance
    is constructed, however long the invocation is then run. *)
Lemma first_attempt_succeeds_one_construction w url retry n :
  isConnecting w = false → isConnected w = false →
  client_connect_result w (length (instances w)) = Ok tt →
  constructions (log (run (S n) w (at_call url retry)).1) =
  S (constructions (log w)).
Proof.
  intros Hc Hl Hok. rewrite run_S, step_call_attempt by done.
  unfold attempt. cbn [fst snd].
  rewrite (succeeding_run (length (instances w))).
  - unfold construct. rewrite !constructions_add.
    cbn [log set_rabbitMQClient set_instances set_isConnecting
         set_connectionUrl]. lia.
  - unfold RabbitMQConnection.client_connect_result in Hok.
    cbn [connection set_isConnecting set_connectionUrl instances].
    destruct (connection w); cbn [succeeding].
    + destruct (createChannel (length (instances w))) as [|ch] eqn:E;
        [done|]. eauto.
    + destruct (amqp_connect (length (instances w))) as [|c] eqn:E1;
        [done|].
      destruct (createChannel (length (instances w))) as [|ch] eqn:E2;
        [done|]. eauto 10.
Qed.

(** C3, as amended: when a second [connect] is called while a first one
    is inside its connect loop, the second call changes nothing and
    starts polling; from then on, whatever the interleaving, the manager
    and the first call evolve as if the first call ran alone, so that the
    only connection attempt sequence is the first caller's (one Transport
    Client per attempt of that sequence, hence exactly one when the first
    attempt succeeds); the second caller keeps polling while the
    connecting flag is set and, once the flag is cleared (the first
    caller has left its loop, connected or with its error thrown), its
    next turn returns normally. *)
Theorem concurrent_connect_single_sequence
    w url retryA retryB k wA a :
  isConnecting w = false → isConnected w = false →
  run (S k) w (at_call url retryA) = (wA, a) →
  in_flight a = true →
  step wA (at_call url retryB) = (wA, at_poll) ∧
  ∀ schedule w' a' b',
    interleave schedule (wA, a, at_poll) = (w', a', b') →
    (w', a') = run (turns_of_first schedule) wA a ∧
    (b' = at_poll ∨ b' = returned) ∧
    (isConnecting w' = true → b' = at_poll) ∧
    (isConnecting w' = false →
     past_loop a' = true ∧ (step w' b').2 = returned) ∧
    (client_connect_result w (length (instances w)) = Ok tt →
     constructions (log w') = S (constructions (log w))).
Proof.
  intros Hc Hl Hrun Ha.
  assert (Hf : flag_follows wA a).
  { pose proof (flag_follows_run k _ _ (flag_follows_call w url retryA Hc Hl))
      as H.
    rewrite <- run_S, Hrun in H. exact H. }
  assert (HcA : isConnecting wA = true).
  { destruct Hf as [[? _]|[_ Hp]]; [done|]. by destruct a. }
  split.
  { unfold RabbitMQConnection.step. by rewrite HcA. }
  intros schedule w' a' b' Hi.
  destruct (interleave_waiting schedule wA a at_poll Hf) as (Hr & Hf' & Hw');
    [by left|].
  rewrite Hi in Hr, Hf', Hw'. cbn [fst snd] in *.
  split; [done|]. split; [|split; [|split]].
  - destruct Hw' as [->|[-> _]]; auto.
  - intros Hc'. destruct Hw' as [->|[-> ?]]; [done|congruence].
  - intros Hc'. split.
    + destruct Hf' as [[? _]|[_ ?]]; [congruence|done].
    + destruct Hw' as [->|[-> _]]; unfold RabbitMQConnection.step;
        [by rewrite Hc'|done].
  - intros Hok.
    pose proof (first_attempt_succeeds_one_construction w url retryA
                  (k + turns_of_first schedule) Hc Hl Hok) as H.
    rewrite <- Nat.add_succ_l, run_add, Hrun in H. cbn [fst snd] in H.
    by rewrite <- Hr in H.
Qed.

End Facts.

(** The amended C6 on a connected manager. *)
Lemma connect_when_live_only_stores_url_witness :
  (step amqp_up channel_up consume_ok live (at_call "amqp://b" true)).2
    = returned ∧
  log (step amqp_up channel_up consume_ok live (at_call "amqp://b" true)).1
    = log live.
Proof.
  pose proof (connect_when_live_only_stores_url amqp_up channel_up consume_ok
                live "amqp://b" true eq_refl eq_refl) as H.
  split; apply H.
Defined.

(** C6 as stated fails on the stored URL: [connect("amqp://b")] on a
    manager connected to [amqp://a] returns at once but has replaced the
    stored connection URL.  It also needs that no connect is in flight:
    where a first [connect] has its client connected and has not resumed
    yet, the client is live and the connecting flag still set, and a
    [connect] called there starts polling instead of returning. *)
Lemma connect_when_live_replaces_stored_url :
  (isConnecting live = false ∧ isConnected live = true ∧
   (step amqp_up channel_up consume_ok live (at_call "amqp://b" true)).2
     = returned ∧
   connectionUrl
     (step amqp_up channel_up consume_ok live (at_call "amqp://b" true)).1
     ≠ connectionUrl live) ∧
  (let resuming :=
     (run amqp_up channel_up consume_ok 3 idle (at_call "amqp://a" true)).1 in
   isConnecting resuming = true ∧ isConnected resuming = true ∧
   (step amqp_up channel_up consume_ok resuming (at_call "amqp://a" true)).2
     = at_poll).
Proof. repeat split. discriminate. Qed.

(** C7 on an idle manager and a broker that refuses connections. *)
Lemma connect_without_retry_propagates_witness :
  ∃ n w',
    run amqp_down channel_up consume_ok n idle (at_call "amqp://a" false)
      = (w', thrown ECONNREFUSED) ∧
    rabbitMQClient w' = None ∧
    isConnecting w' = false ∧
    ∀ url' retry',
      (step amqp_down channel_up consume_ok w' (at_call url' retry')).2
        ≠ at_poll.
Proof.
  apply (connect_without_retry_propagates amqp_down channel_up consume_ok
           idle "amqp://a" ECONNREFUSED); reflexivity.
Defined.

(** The amended C3 on an idle manager: the second call arrives right after
    the first one. *)
Lemma concurrent_connect_single_sequence_witness :
  step amqp_up channel_up consume_ok
    (run amqp_up channel_up consume_ok 1 idle (at_call "amqp://a" true)).1
    (at_call "amqp://a" true)
  = ((run amqp_up channel_up consume_ok 1 idle (at_call "amqp://a" true)).1,
     at_poll).
Proof.
  apply (concurrent_connect_single_sequence amqp_up channel_up consume_ok
           idle "amqp://a" true true 0 _
           (at_amqp_connect 0%nat "amqp://a" true));
    reflexivity.
Defined.

(** C3 as stated fails on the number of Transport Clients.  With the
    default [retryOnFail] and a broker that refuses the first connection,
    two concurrent calls end with two instances constructed (both by the
    first caller), one of them connected.  With [retryOnFail = false] and a
    broker that is down, one instance is constructed and none connected; the
    first caller ends with the error thrown and the second returns
    normally. *)
Lemma concurrent_connect_not_exactly_one_client :
  (let st :=
     interleave amqp_up_later channel_up consume_ok
       [first; second; first; first; second; first; first; first; first;
        second]
       (idle, at_call "amqp://a" true, at_call "amqp://a" true) in
   st.1.2 = returned ∧ st.2 = returned ∧
   constructions (log st.1.1) = 2%nat ∧
   connected_clients st.1.1 = 1%nat) ∧
  (let st :=
     interleave amqp_down channel_up consume_ok
       [first; second; first; first; second]
       (idle, at_call "amqp://a" false, at_call "amqp://a" true) in
   st.1.2 = thrown ECONNREFUSED ∧ st.2 = returned ∧
   constructions (log st.1.1) = 1%nat ∧
   connected_clients st.1.1 = 0%nat).
Proof. repeat split. Qed.

(** C8 on two consumers of which the first fails to start. *)
Lemma startConsumers_continues_after_failure :
  (run amqp_up channel_up consume_10_fails 2
     (startConsumers live).1 (startConsumers live).2).2 = returned ∧
  log (run amqp_up channel_up consume_10_fails 2
         (startConsumers live).1 (startConsumers live).2).1 =
  [consume_called 10%nat;
   consumer_failed 10%nat (new_Error "Channel closed");
   consume_called 11%nat;
   consumer_started 11%nat].
Proof. split; reflexivity. Qed.

End RabbitMQConnectionFacts.

(** ** The publisher base class *)

Module PublisherFacts.

Import Publisher.

(** C10: the first access to [rabbitMQClient] of a publisher, made while
    the manager holds a client, returns that client and caches it in the
    instance; every later access returns the cached client and leaves the
    cache as it is, whatever the manager holds by then: no client, or the
    new client of a reconnection. *)
Theorem cached_client_never_invalidated p w r :
  _rabbitMQClient p = None →
  RabbitMQConnection.rabbitMQClient w = Some r →
  (rabbitMQClient w p).1 = Ok r ∧
  _rabbitMQClient (rabbitMQClient w p).2 = Some r ∧
  ∀ w', rabbitMQClient w' (rabbitMQClient w p).2
        = (Ok r, (rabbitMQClient w p).2).
Proof.
  intros Hp Hw. unfold rabbitMQClient at 1 2 4 5.
  unfold RabbitMQConnection.getClient. rewrite Hp, Hw. cbn [fst snd].
  repeat split.
Qed.

(** C10 along a connection loss: a publisher reads its client on a
    connected manager; the connection closes, the handler of the client
    invokes the connection-lost callback and [handleConnectionLost] runs to
    its end; the manager now holds a new, connected client, and the
    publisher still gets the old one, which is disconnected. *)
Lemma cached_client_never_invalidated_witness :
  let p := (rabbitMQClient RabbitMQConnection.live (new "orders" RabbitMQClient.no_options)).2 in
  let lost := RabbitMQConnection.connection_closed RabbitMQConnection.live in
  let reconnected :=
    RabbitMQConnection.run_task RabbitMQConnection.amqp_up
      RabbitMQConnection.channel_up RabbitMQConnection.consume_ok
      7 lost.1 RabbitMQConnection.lost_call in
  lost.2 = true ∧
  reconnected.2 = RabbitMQConnection.lost_returned ∧
  RabbitMQConnection.getClient reconnected.1 = Ok 1%nat ∧
  RabbitMQConnection.isConnected reconnected.1 = true ∧
  RabbitMQClient.getConnectionStatus <$>
    (RabbitMQConnection.instances reconnected.1 !! 0%nat) = Some false ∧
  rabbitMQClient reconnected.1 p = (Ok 0%nat, p).
Proof.
  repeat (split; [reflexivity|]).
  apply (cached_client_never_invalidated
           (new "orders" RabbitMQClient.no_options)
           RabbitMQConnection.live 0%nat); reflexivity.
Defined.

End PublisherFacts.

(** ** The consumer retry policy *)

Module ConsumerFacts.

Import RabbitMQClient Consumer.

Lemma error_queue_differs queue : (error_queue queue =? queue)%string = false.
Proof.
  apply String.eqb_neq. unfold error_queue. intros H.
  apply (f_equal String.length) in H. revert H.
  induction queue as [|a queue IH]; simpl; [done|].
  intros H. apply IH. by injection H.
Qed.

Section Facts.

Variable Message : Type.
Variable JSON_parse : Buffer → option Message.
Variable execute : Message → Result unit.
Variable describe : Error → string.
Variable attempt_key : string.
Variable error_key : string.

Local Abbreviation on_delivery :=
  (on_delivery Message JSON_parse execute describe attempt_key error_key).
Local Abbreviation attempt_counter := (attempt_counter attempt_key).
Local Abbreviation count := (count Message).
Local Abbreviation is_publish_to := (is_publish_to Message).
Local Abbreviation is_publish := (is_publish Message).
Local Abbreviation is_ack := (is_ack Message).
Local Abbreviation is_ack_of := (is_ack_of Message).
Local Abbreviation is_nack := (is_nack Message).

(** C1: a delivery whose payload parses, whose execution fails, with
    retry enabled and an attempt counter (0 when the header is absent)
    below [retry_count]: the consumer asks for exactly one publish, to its
    own queue, of the parsed message, with the configured delay and the
    delivery's headers in which the counter is one higher and the error
    description is recorded, and then for exactly one acknowledgement, of
    that delivery; it asks for no negative acknowledgement and no publish
    to the error queue. *)
Theorem failed_execution_is_retried c d message error :
  attempt_key ≠ error_key →
  JSON_parse (content d) = Some message →
  execute message = Throw error →
  retry (policy c) = true →
  (attempt_counter (delivery_headers d) < retry_count (policy c))%Z →
  ∃ options h requests,
    on_delivery c d = Some requests ∧
    requests = [publish Message (queueName c) message options; ack Message d] ∧
    headers options = Present (Some h) ∧
    attempt_counter h = (attempt_counter (delivery_headers d) + 1)%Z ∧
    h !! error_key = Some (HStr (describe error)) ∧
    (∀ k, k ≠ attempt_key → k ≠ error_key →
          h !! k = delivery_headers d !! k) ∧
    delay options = Present (Some (retry_delay_ms (policy c))) ∧
    count (is_publish_to (queueName c)) requests = 1%nat ∧
    count is_publish requests = 1%nat ∧
    count (is_publish_to (error_queue (queueName c))) requests = 0%nat ∧
    count is_ack requests = 1%nat ∧
    count (is_ack_of d) requests = 1%nat ∧
    count is_nack requests = 0%nat.
Proof.
  intros Hkeys Hparse Hexec Hretry Hlt.
  eexists _, _, _. split.
  { unfold Consumer.on_delivery. rewrite Hparse, Hexec.
    unfold on_failure. rewrite Hretry. cbn [negb orb].
    destruct (Z.leb_spec (retry_count (policy c))
                (attempt_counter (delivery_headers d))); [lia|].
    reflexivity. }
  split; [reflexivity|]. split; [reflexivity|].
  unfold retry_headers, Consumer.attempt_counter.
  split; [|split; [|split; [|split]]].
  - by rewrite lookup_insert_ne, lookup_insert_eq.
  - by rewrite lookup_insert_eq.
  - intros k Hk1 Hk2. by rewrite !lookup_insert_ne.
  - reflexivity.
  - unfold Consumer.count, Consumer.is_publish_to. cbn [List.filter].
    rewrite String.eqb_refl, String.eqb_sym, error_queue_differs.
    cbn. by rewrite Nat.eqb_refl.
Qed.

(** C2: a delivery whose execution fails while retry is disabled or the
    attempt counter has reached [retry_count]: the consumer asks for
    exactly one publish, to [<queueName>_error], of the parsed message as
    it is, with the delivery's headers unchanged, and then for exactly one
    acknowledgement, of that delivery; it asks for no publish to its own
    queue and for no negative acknowledgement. *)
Theorem failed_execution_is_dead_lettered c d message error :
  JSON_parse (content d) = Some message →
  execute message = Throw error →
  retry (policy c) = false ∨
  (retry_count (policy c) ≤ attempt_counter (delivery_headers d))%Z →
  ∃ options requests,
    on_delivery c d = Some requests ∧
    requests =
      [publish Message (queueName c +:+ "_error") message options;
       ack Message d] ∧
    headers options = Present (Some (delivery_headers d)) ∧
    count (is_publish_to (queueName c +:+ "_error")) requests = 1%nat ∧
    count is_publish requests = 1%nat ∧
    count (is_publish_to (queueName c)) requests = 0%nat ∧
    count is_ack requests = 1%nat ∧
    count (is_ack_of d) requests = 1%nat ∧
    count is_nack requests = 0%nat.
Proof.
  intros Hparse Hexec Hcond.
  eexists _, _. split.
  { unfold Consumer.on_delivery. rewrite Hparse, Hexec.
    unfold on_failure.
    assert (negb (retry (policy c))
            || (retry_count (policy c) <=?
                attempt_counter (delivery_headers d))%Z = true) as ->.
    { destruct Hcond as [->|Hle]; [done|].
      apply orb_true_iff. right. by apply Z.leb_le. }
    reflexivity. }
  split; [reflexivity|]. split; [reflexivity|].
  unfold Consumer.count, Consumer.is_publish_to. cbn [List.filter].
  fold (error_queue (queueName c)).
  rewrite String.eqb_refl, error_queue_differs.
  cbn. by rewrite Nat.eqb_refl.
Qed.

End Facts.

(** C1 on a first delivery (no headers) to a consumer with the default
    policy. *)
Lemma failed_execution_is_retried_witness :
  on_delivery string (λ b, Some (string_of_list_byte b))
    (λ _, Throw (new_Error "boom")) (λ e, template (message e))
    "x-retry-count" "x-last-error"
    (mkInstance "orders" default_policy) (mkDelivery 1 (Buffer_from "{}") ∅)
  = Some
      [publish string "orders" "{}"
         (mkOptions Absent Absent Absent (Present (Some 0%Z)) Absent
            (Present (Some (<["x-last-error" := HStr "boom"]>
                              (<["x-retry-count" := HNum 1]> ∅)))));
       ack string (mkDelivery 1 (Buffer_from "{}") ∅)].
Proof.
  destruct (failed_execution_is_retried string
              (λ b, Some (string_of_list_byte b))
              (λ _, Throw (new_Error "boom")) (λ e, template (message e))
              "x-retry-count" "x-last-error"
              (mkInstance "orders" default_policy)
              (mkDelivery 1 (Buffer_from "{}") ∅) "{}" (new_Error "boom"))
    as (options & h & requests & Hd & _); [done..|].
  reflexivity.
Defined.

(** C2 on a delivery whose counter has reached the default [retry_count]. *)
Lemma failed_execution_is_dead_lettered_witness :
  on_delivery string (λ b, Some (string_of_list_byte b))
    (λ _, Throw (new_Error "boom")) (λ e, template (message e))
    "x-retry-count" "x-last-error"
    (mkInstance "orders" default_policy)
    (mkDelivery 1 (Buffer_from "{}") {["x-retry-count" := HNum 3]})
  = Some
      [publish string "orders_error" "{}"
         (mkOptions Absent Absent Absent Absent Absent
            (Present (Some {["x-retry-count" := HNum 3]})));
       ack string
         (mkDelivery 1 (Buffer_from "{}") {["x-retry-count" := HNum 3]})].
Proof.
  destruct (failed_execution_is_dead_lettered string
              (λ b, Some (string_of_list_byte b))
              (λ _, Throw (new_Error "boom")) (λ e, template (message e))
              "x-retry-count" "x-last-error"
              (mkInstance "orders" default_policy)
              (mkDelivery 1 (Buffer_from "{}")
                 {["x-retry-count" := HNum 3]})
              "{}" (new_Error "boom"))
    as (options & requests & Hd & _); [done | done | by right |].
  reflexivity.
Defined.

End ConsumerFacts.

(** ** More on the transport client *)

Module RabbitMQClientMoreFacts.

Import RabbitMQClient.

Lemma includes_unfold needle hay :
  includes needle hay =
  String.prefix needle hay ||
  match hay with
  | EmptyString => false
  | String _ rest => includes needle rest
  end.
Proof. by destruct hay. Qed.

Lemma prefix_append needle post : String.prefix needle (needle +:+ post) = true.
Proof.
  induction needle as [|a needle IH]; simpl.
  - by destruct post.
  - by destruct (Ascii.ascii_dec a a).
Qed.

(** [includes] finds the needle wherever it lies. *)
Lemma includes_infix pre needle post :
  includes needle (pre +:+ needle +:+ post) = true.
Proof.
  induction pre as [|a pre IH].
  - change ("" +:+ needle +:+ post) with (needle +:+ post).
    rewrite includes_unfold. by rewrite prefix_append.
  - change (String a pre +:+ needle +:+ post)
      with (String a (pre +:+ needle +:+ post)).
    rewrite includes_unfold, IH. apply orb_true_r.
Qed.

Section Facts.

Variable rejects : list Call → Call → option Error.
Variable Message : Type.
Variable JSON_stringify : Message → string.

Local Abbreviation publish := (publish rejects Message JSON_stringify).
Local Abbreviation sendToQueue := (sendToQueue rejects Message JSON_stringify).
Local Abbreviation ack := (ack rejects).
Local Abbreviation nack := (nack rejects).
Local Abbreviation close := (close rejects).
Local Abbreviation await := (await rejects).
Local Abbreviation awaits := (awaits rejects).

Lemma awaits_frame l s :
  this (awaits l s).2 = this s ∧ connection (awaits l s).2 = connection s.
Proof.
  revert s. induction l as [|c l IH]; intros s; [done|].
  destruct l as [|c' l].
  - simpl. unfold RabbitMQClient.await. by destruct (rejects (calls s) c).
  - change (awaits (c :: c' :: l)) with (bind (await c) (λ _, awaits (c' :: l))).
    unfold bind, RabbitMQClient.await at 1 2.
    destruct (rejects (calls s) c); [done|].
    destruct (IH (add_call c s)) as [-> ->]. done.
Qed.

(** An error that comes out of awaited calls is one the transport raised
    for one of them. *)
Lemma awaits_throw l s e :
  (awaits l s).1 = Throw e → ∃ h c, c ∈ l ∧ rejects h c = Some e.
Proof.
  revert s. induction l as [|c l IH]; intros s; [done|].
  destruct l as [|c' l].
  - simpl. unfold RabbitMQClient.await.
    destruct (rejects (calls s) c) as [e'|] eqn:E; [|done].
    intros [= ->]. exists (calls s), c. split; [constructor|done].
  - change (awaits (c :: c' :: l)) with (bind (await c) (λ _, awaits (c' :: l))).
    unfold bind, RabbitMQClient.await at 1.
    destruct (rejects (calls s) c) as [e'|] eqn:E.
    + intros [= ->]. exists (calls s), c. split; [constructor|done].
    + intros H. destruct (IH _ H) as (h & c0 & Hin & Hr).
      exists h, c0. split; [by constructor|done].
Qed.

(** The error named by the [catch] block of the send operations. *)
Lemma on_send_error_state e s :
  on_send_error e s =
  (Throw e,
   if message_includes "Channel closed" e
      || message_includes "Connection closed" e
   then set_channel None (set_isConnected false s)
   else s).
Proof.
  unfold on_send_error, bind, when, modify, throw, ret.
  by destruct (_ || _).
Qed.

(** What a send operation leaves behind when it throws with the channel
    open. *)
Lemma guarded_send_throw l s e s' :
  try_catch (awaits l) on_send_error s = (Throw e, s') →
  (∃ h c, c ∈ l ∧ rejects h c = Some e) ∧
  connection s' = connection s ∧
  this s' =
    (if message_includes "Channel closed" e
        || message_includes "Connection closed" e
     then {| url := url (this s); channel := None; isConnected := false;
             connectionLostCallback := connectionLostCallback (this s) |}
     else this s).
Proof.
  unfold try_catch. destruct (awaits_frame l s) as [Ht Hc].
  pose proof (awaits_throw l s) as Hthrow.
  destruct (awaits l s) as [[[]|e'] s1] eqn:E; [done|].
  rewrite on_send_error_state. cbn [fst snd] in *. intros [= -> <-].
  split; [by apply Hthrow|].
  destruct (_ || _); cbn; rewrite ?Ht, ?Hc; done.
Qed.

Lemma send_without_channel queue message options s :
  channel (this s) = None →
  publish queue message options s =
    (Throw (new_Error "Cannot publish: RabbitMQ channel not initialized"), s) ∧
  sendToQueue queue message options s =
    (Throw (new_Error "Cannot send to queue: RabbitMQ channel not initialized"),
     s).
Proof.
  intros H.
  unfold RabbitMQClient.publish, RabbitMQClient.sendToQueue, bind, get, throw.
  by rewrite H.
Qed.

(** Without a channel the send operations throw at once, the
    acknowledgements do nothing. *)
Theorem no_channel_no_call queue message options delivery s :
  channel (this s) = None →
  publish queue message options s =
    (Throw (new_Error "Cannot publish: RabbitMQ channel not initialized"), s) ∧
  sendToQueue queue message options s =
    (Throw (new_Error "Cannot send to queue: RabbitMQ channel not initialized"),
     s) ∧
  ack delivery s = (Ok tt, s) ∧
  nack delivery s = (Ok tt, s).
Proof.
  intros H.
  destruct (send_without_channel queue message options s H) as [Hp Hs].
  do 2 (split; [done|]).
  unfold RabbitMQClient.ack, RabbitMQClient.nack, bind, get, ret.
  rewrite H. by destruct delivery.
Qed.

(** A send operation that fails with an error whose message contains
    "Channel closed" or "Connection closed" rethrows it and leaves the client
    disconnected and without channel, so that the next send throws without
    reaching the transport. *)
Theorem closed_error_invalidates queue msg options ch s e pre post :
  channel (this s) = Some ch →
  message e = Some (pre +:+ "Channel closed" +:+ post) ∨
  message e = Some (pre +:+ "Connection closed" +:+ post) →
  ∀ s', (publish queue msg options s = (Throw e, s') ∨
         sendToQueue queue msg options s = (Throw e, s')) →
    isConnected (this s') = false ∧
    channel (this s') = None ∧
    getConnectionStatus (this s') = false ∧
    connection s' = connection s ∧
    connectionLostCallback (this s') = connectionLostCallback (this s) ∧
    ∀ queue' message' options',
      publish queue' message' options' s' =
        (Throw (new_Error "Cannot publish: RabbitMQ channel not initialized"),
         s') ∧
      sendToQueue queue' message' options' s' =
        (Throw (new_Error
           "Cannot send to queue: RabbitMQ channel not initialized"), s').
Proof.
  intros Hch Hmsg s' Hs'.
  assert (Hclosed : message_includes "Channel closed" e
                    || message_includes "Connection closed" e = true).
  { unfold message_includes.
    destruct Hmsg as [-> | ->]; rewrite includes_infix;
      [done | apply orb_true_r]. }
  assert (Hthis : this s' =
            {| url := url (this s); channel := None; isConnected := false;
               connectionLostCallback := connectionLostCallback (this s) |}
            ∧ connection s' = connection s).
  { destruct Hs' as [H|H].
    - rewrite (RabbitMQClientFacts.publish_awaits _ _ _ ch) in H by done.
      destruct (guarded_send_throw _ _ _ _ H) as (_ & Hc & Ht).
      by rewrite Hclosed in Ht.
    - rewrite (RabbitMQClientFacts.sendToQueue_awaits _ _ _ ch) in H by done.
      destruct (guarded_send_throw _ _ _ _ H) as (_ & Hc & Ht).
      by rewrite Hclosed in Ht. }
  destruct Hthis as [Ht Hc].
  do 3 (split; [by rewrite Ht|]). split; [done|]. split; [by rewrite Ht|].
  intros queue' message' options'.
  apply send_without_channel. by rewrite Ht.
Qed.

(** When closing the channel fails, [close()] throws that error, keeps the
    channel and does not touch the connection; when closing the connection
    fails, it throws that error with the channel already dropped, the
    connection kept and the connected flag as it was. *)
Theorem close_failure_leaves_client_half_closed s e :
  (∀ ch, channel (this s) = Some ch →
         rejects (calls s) (channel_close ch) = Some e →
         close s = (Throw e, add_call (channel_close ch) s)) ∧
  (∀ c, connection s = Some c →
        (∀ ch, channel (this s) = Some ch →
               rejects (calls s) (channel_close ch) = None) →
        rejects (calls s ++ match channel (this s) with
                            | Some ch => [channel_close ch]
                            | None => []
                            end) (connection_close c) = Some e →
        ∃ s', close s = (Throw e, s') ∧
              channel (this s') = None ∧
              connection s' = Some c ∧
              isConnected (this s') = isConnected (this s) ∧
              connectionLostCallback (this s') = connectionLostCallback (this s)).
Proof.
  destruct s as [[u ch co cb] cn cl]. split.
  - intros ch' [= ->] Hr. cbn [calls] in Hr.
    unfold RabbitMQClient.close, try_catch, bind, get, RabbitMQClient.await,
      throw; cbn [this channel calls]. by rewrite Hr.
  - intros c [= ->] Hch Hr. cbn [this channel calls connection] in *.
    unfold RabbitMQClient.close, try_catch, bind, get, RabbitMQClient.await,
      throw, modify, ret.
    destruct ch as [ch|]; cbn.
    + rewrite (Hch ch eq_refl). cbn. rewrite Hr. cbn. eauto 10.
    + rewrite app_nil_r in Hr. rewrite Hr. cbn. eauto 10.
Qed.

Lemma close_ok_cleared s s' :
  close s = (Ok tt, s') →
  channel (this s') = None ∧ connection s' = None ∧
  isConnected (this s') = false.
Proof.
  destruct s as [[u ch co cb] cn cl].
  unfold RabbitMQClient.close, try_catch, bind, get, RabbitMQClient.await,
    throw, modify, ret; cbn [this channel calls connection].
  destruct ch as [ch|], cn as [cn|]; cbn;
    repeat match goal with
           | |- context [rejects ?h ?c] => destruct (rejects h c); cbn
           end;
    intros [= <-]; done.
Qed.

(** [close()] can be repeated: after a normal return a second [close()]
    makes no transport call and returns normally, the client reports that
    it is not connected, and the send operations throw. *)
Theorem close_is_idempotent s s' :
  close s = (Ok tt, s') →
  close s' = (Ok tt, s') ∧
  getConnectionStatus (this s') = false ∧
  ∀ queue msg options,
    publish queue msg options s' =
      (Throw (new_Error "Cannot publish: RabbitMQ channel not initialized"), s') ∧
    sendToQueue queue msg options s' =
      (Throw (new_Error "Cannot send to queue: RabbitMQ channel not initialized"),
       s').
Proof.
  intros H. destruct (close_ok_cleared s s' H) as (Hch & Hcn & Hco).
  split; [|split].
  - destruct s' as [[u ch co cb] cn cl]. cbn in *. subst. done.
  - unfold getConnectionStatus. by rewrite Hco.
  - intros queue msg options. by apply send_without_channel.
Qed.

Lemma merged_headers_spread queue options :
  spread_headers (read (headers (mergedOptions queue options))) =
  spread_headers (read (headers options)).
Proof.
  unfold mergedOptions, spread. cbn [headers]. by destruct (headers options).
Qed.

(** The headers a message is published with through the delayed exchange,
    by [publish] and by the delayed path of [sendToQueue], are the caller's
    headers with [x-delay] set to the effective delay: a caller's own
    [x-delay] is overwritten, every other header passes unchanged. *)
Theorem caller_headers_pass_through queue msg options ch s :
  channel (this s) = Some ch →
  (∀ h c, rejects h c = None) →
  ∃ hs,
    last (calls (publish queue msg options s).2) =
      Some (channel_publish ch
              (delayed_exchange (mergedOptions queue options))
              (read (routingKey (mergedOptions queue options)))
              (Buffer_from (JSON_stringify msg)) hs) ∧
    (delay_is_positive (mergedOptions queue options) = true →
     last (calls (sendToQueue queue msg options s).2) =
      Some (channel_publish ch
              (delayed_exchange (mergedOptions queue options))
              (read (routingKey (mergedOptions queue options)))
              (Buffer_from (JSON_stringify msg)) hs)) ∧
    hs !! "x-delay" =
      Some (header_of_number (read (delay (mergedOptions queue options)))) ∧
    ∀ k, k ≠ "x-delay" →
         hs !! k = spread_headers (read (headers options)) !! k.
Proof.
  intros Hch Hacc. eexists. split; [|split; [|split]].
  - rewrite (RabbitMQClientFacts.publish_awaits _ _ _ ch) by done.
    erewrite RabbitMQClientFacts.try_catch_ok
      by (by apply RabbitMQClientFacts.awaits_accepted).
    cbn [snd calls]. unfold publish_route.
    rewrite last_app. reflexivity.
  - intros Hpos.
    rewrite (RabbitMQClientFacts.sendToQueue_awaits _ _ _ ch) by done.
    erewrite RabbitMQClientFacts.try_catch_ok
      by (by apply RabbitMQClientFacts.awaits_accepted).
    cbn [snd calls]. unfold sendToQueue_route.
    rewrite RabbitMQClientFacts.delay_is_positive_spec in Hpos.
    destruct (read (delay (mergedOptions queue options))) as [d|] eqn:Hd;
      [|done].
    rewrite Hpos, last_app. unfold publish_through_delayed_exchange.
    cbn [last]. by rewrite Hd.
  - apply lookup_insert_eq.
  - intros k Hk. rewrite lookup_insert_ne by done.
    by rewrite merged_headers_spread.
Qed.

(** A key the caller binds to [undefined] replaces the default like any
    other: with [{exchange: undefined}] the exchange [publish] declares is
    named "undefined-delayed", and with [{delay: undefined}] [sendToQueue]
    sends directly. *)
Theorem undefined_key_replaces_default queue msg options ch s :
  channel (this s) = Some ch →
  (exchange options = Present None →
   ∃ rest, calls (publish queue msg options s).2 =
           calls s ++
           assertExchange ch "undefined-delayed" "x-delayed-message" true
             (read (exchangeType (mergedOptions queue options))) :: rest) ∧
  (delay options = Present None →
   (∀ h c, rejects h c = None) →
   calls (sendToQueue queue msg options s).2 =
   calls s ++ [assertQueue ch queue true;
               channel_sendToQueue ch queue
                 (Buffer_from (JSON_stringify msg)) options]).
Proof.
  intros Hch. split.
  - intros Hex.
    destruct (RabbitMQClientFacts.awaits_prefix rejects
                (publish_route ch queue (Buffer_from (JSON_stringify msg))
                   (mergedOptions queue options)) s) as (n & _ & Hn & Hc).
    rewrite (RabbitMQClientFacts.publish_awaits _ _ _ ch),
      RabbitMQClientFacts.try_catch_send_calls, Hc by done.
    destruct n as [|n]; [specialize (Hn ltac:(done)); lia|].
    unfold publish_route, declare_delayed_exchange, mergedOptions, spread.
    cbn [take exchange]. rewrite Hex. cbn. eauto.
  - intros Hd Hacc.
    rewrite (RabbitMQClientFacts.sendToQueue_awaits _ _ _ ch) by done.
    erewrite RabbitMQClientFacts.try_catch_ok
      by (by apply RabbitMQClientFacts.awaits_accepted).
    cbn [snd calls]. unfold sendToQueue_route, mergedOptions, spread.
    cbn [delay]. by rewrite Hd.
Qed.

End Facts.

(** On a client that was never connected. *)
Lemma no_channel_no_call_witness :
  publish accepting string id "orders" "{}" no_options closed_client =
    (Throw (new_Error "Cannot publish: RabbitMQ channel not initialized"),
     closed_client) ∧
  ack accepting (Some 7%nat) closed_client = (Ok tt, closed_client).
Proof.
  destruct (no_channel_no_call accepting string id "orders" "{}" no_options
              (Some 7%nat) closed_client eq_refl) as (Hp & _ & Ha & _).
  by split.
Defined.

(** The broker closes the channel while [publish] publishes. *)
Lemma closed_error_invalidates_witness :
  getConnectionStatus
    (this (publish Transports.closes_on_publish string id "orders" "{}"
             no_options open_client).2) = false.
Proof.
  eapply (closed_error_invalidates Transports.closes_on_publish string id
            "orders" "{}" no_options 1%nat open_client
            (new_Error "Error: Channel closed by server")
            "Error: " " by server" eq_refl).
  - by left.
  - left. reflexivity.
Defined.

(** Closing the channel fails; closing the connection fails. *)
Lemma close_failure_leaves_client_half_closed_witness :
  close Transports.channel_close_fails open_client =
    (Throw (new_Error "Channel closing"),
     add_call (channel_close 1%nat) open_client) ∧
  ∃ s', close Transports.connection_close_fails open_client =
          (Throw (new_Error "Connection closing"), s') ∧
        channel (this s') = None ∧ connection s' = Some 2%nat ∧
        isConnected (this s') = true.
Proof.
  split.
  - by apply (close_failure_leaves_client_half_closed
                Transports.channel_close_fails open_client
                (new_Error "Channel closing")).
  - destruct (proj2 (close_failure_leaves_client_half_closed
                       Transports.connection_close_fails open_client
                       (new_Error "Connection closing")) 2%nat)
      as (s' & H1 & H2 & H3 & H4 & _); [done..|].
    exists s'. done.
Defined.

(** Closing twice. *)
Lemma close_is_idempotent_witness :
  close accepting (close accepting open_client).2 =
  (Ok tt, (close accepting open_client).2).
Proof.
  by apply (close_is_idempotent accepting string id open_client).
Defined.

(** The caller's [trace] header passes, its [x-delay] is replaced by the
    delay. *)
Lemma caller_headers_pass_through_witness :
  ∃ hs,
    last (calls (publish accepting string id "orders" "{}"
                   Transports.traced_options open_client).2) =
      Some (channel_publish 1%nat "Exchange_orders-delayed" (Some "orders")
              (Buffer_from "{}") hs) ∧
    hs !! "trace" = Some (HStr "abc") ∧
    hs !! "x-delay" = Some (HNum 500).
Proof.
  destruct (caller_headers_pass_through accepting string id "orders" "{}"
              Transports.traced_options 1%nat open_client eq_refl)
    as (hs & Hp & _ & Hx & Hk); [done|].
  exists hs. split; [exact Hp|]. split; [|exact Hx].
  by rewrite Hk.
Defined.

(** [{exchange: undefined, delay: undefined}] *)
Lemma undefined_key_replaces_default_witness :
  calls (sendToQueue accepting string id "orders" "{}"
           Transports.undefined_options open_client).2 =
  [assertQueue 1%nat "orders" true;
   channel_sendToQueue 1%nat "orders" (Buffer_from "{}")
     Transports.undefined_options].
Proof.
  by apply (undefined_key_replaces_default accepting string id "orders" "{}"
              Transports.undefined_options 1%nat open_client eq_refl).
Defined.

End RabbitMQClientMoreFacts.

(** ** publish and sendToQueue on any message *)

Module RabbitMQClientEncodingFacts.

Import RabbitMQClient.

Section Facts.

Variable rejects : list Call → Call → option Error.
Variable Message : Type.
Variable encode : Message → Error + Buffer.

Local Abbreviation publish :=
  (RabbitMQClientEncoding.publish rejects Message encode).
Local Abbreviation sendToQueue :=
  (RabbitMQClientEncoding.sendToQueue rejects Message encode).
Local Abbreviation Buffer_from_JSON_stringify :=
  (RabbitMQClientEncoding.Buffer_from_JSON_stringify Message encode).
Local Abbreviation await := (await rejects).
Local Abbreviation awaits := (awaits rejects).
Local Abbreviation publish_declares := RabbitMQClientEncoding.publish_declares.
Local Abbreviation sendToQueue_declares :=
  RabbitMQClientEncoding.sendToQueue_declares.

(** The message is encoded once the calls before it have been accepted. *)
Lemma awaits_then_encode_1 c1 (f : Buffer → Call) message s :
  bind (await c1)
    (λ _, bind (Buffer_from_JSON_stringify message) (λ content, await (f content)))
    s =
  match encode message with
  | inr content => awaits [c1; f content] s
  | inl e => bind (awaits [c1]) (λ _, throw e) s
  end.
Proof.
  unfold RabbitMQClientEncoding.Buffer_from_JSON_stringify.
  destruct (encode message) as [e|content]; cbn [RabbitMQClient.awaits];
    unfold bind, RabbitMQClient.await, ret, throw;
    by destruct (rejects (calls s) c1).
Qed.

Lemma awaits_then_encode_3 c1 c2 c3 (f : Buffer → Call) message s :
  bind (await c1)
    (λ _, bind (await c2)
       (λ _, bind (await c3)
          (λ _, bind (Buffer_from_JSON_stringify message)
             (λ content, await (f content)))))
    s =
  match encode message with
  | inr content => awaits [c1; c2; c3; f content] s
  | inl e => bind (awaits [c1; c2; c3]) (λ _, throw e) s
  end.
Proof.
  unfold RabbitMQClientEncoding.Buffer_from_JSON_stringify.
  destruct (encode message) as [e|content]; cbn [RabbitMQClient.awaits];
    unfold bind, RabbitMQClient.await, ret, throw;
    destruct (rejects (calls s) c1); try done;
    destruct (rejects (calls (add_call c1 s)) c2); try done;
    by destruct (rejects (calls (add_call c2 (add_call c1 s))) c3).
Qed.

(** The body of [publish] awaits its route when the message can be
    encoded, and otherwise the calls before the encoding. *)
Lemma publish_encodes ch queue message options s :
  channel (this s) = Some ch →
  publish queue message options s =
  try_catch
    (match encode message with
     | inr content =>
         awaits (publish_route ch queue content (mergedOptions queue options))
     | inl e =>
         bind (awaits (publish_declares ch queue (mergedOptions queue options)))
           (λ _, throw e)
     end)
    on_send_error s.
Proof.
  intros Hch. unfold RabbitMQClientEncoding.publish, bind at 1, get.
  rewrite Hch. unfold try_catch. cbv zeta.
  rewrite awaits_then_encode_3.
  by destruct (encode message).
Qed.

Lemma sendToQueue_encodes ch queue message options s :
  channel (this s) = Some ch →
  sendToQueue queue message options s =
  try_catch
    (match encode message with
     | inr content =>
         awaits (sendToQueue_route ch queue content
                   (mergedOptions queue options) options)
     | inl e =>
         bind (awaits (sendToQueue_declares ch queue
                         (mergedOptions queue options)))
           (λ _, throw e)
     end)
    on_send_error s.
Proof.
  intros Hch. unfold RabbitMQClientEncoding.sendToQueue, bind at 1, get.
  rewrite Hch. unfold try_catch. cbv zeta.
  rewrite RabbitMQClientFacts.delayed_headers_merged.
  unfold RabbitMQClientEncoding.sendToQueue_declares.
  destruct (delay_is_positive (mergedOptions queue options)) eqn:Hpos.
  - rewrite awaits_then_encode_3.
    destruct (encode message) as [e|content]; [done|].
    by rewrite RabbitMQClientFacts.sendToQueue_route_by_condition, Hpos.
  - rewrite awaits_then_encode_1.
    destruct (encode message) as [e|content]; [done|].
    by rewrite RabbitMQClientFacts.sendToQueue_route_by_condition, Hpos.
Qed.

(** An error out of the body of a send operation: whose it is, and what
    the [catch] block leaves. *)
Lemma guarded_throw route declares message s e s' :
  try_catch
    (match encode message with
     | inr content => awaits (route content)
     | inl e0 => bind (awaits declares) (λ _, throw e0)
     end)
    on_send_error s = (Throw e, s') →
  (encode message = inl e ∨
   ∃ made c, calls s' = calls s ++ made ++ [c] ∧
             rejects (calls s ++ made) c = Some e) ∧
  connection s' = connection s ∧
  (message_includes "Channel closed" e = false →
   message_includes "Connection closed" e = false →
   this s' = this s).
Proof.
  unfold try_catch.
  destruct (encode message) as [e0|content] eqn:Henc.
  - unfold bind, throw.
    pose proof (RabbitMQClientFacts.awaits_outcome rejects declares s) as Ho.
    destruct (RabbitMQClientMoreFacts.awaits_frame rejects declares s)
      as [Ht Hc].
    destruct (awaits declares s) as [[[]|e1] s1]; cbn [fst snd] in *;
      rewrite RabbitMQClientMoreFacts.on_send_error_state;
      intros [= -> <-].
    + split; [by left|].
      split; [by destruct (_ || _)|].
      intros -> ->. by cbn.
    +
      destruct Ho as (made & c & rest & _ & Hcalls & Hr).
      split.
      { right. exists made, c. split; [|done]. by destruct (_ || _). }
      split; [by destruct (_ || _)|].
      intros -> ->. by cbn.
  - pose proof (RabbitMQClientFacts.awaits_outcome rejects (route content) s)
      as Ho.
    destruct (RabbitMQClientMoreFacts.awaits_frame rejects (route content) s)
      as [Ht Hc].
    destruct (awaits (route content) s) as [[[]|e1] s1]; cbn [fst snd] in *;
      [done|].
    rewrite RabbitMQClientMoreFacts.on_send_error_state.
    intros [= -> <-].
    destruct Ho as (made & c & rest & _ & Hcalls & Hr).
    split.
    { right. exists made, c. split; [|done]. by destruct (_ || _). }
    split; [by destruct (_ || _)|].
    intros -> ->. by cbn.
Qed.


(** Where every message can be encoded, the operations are those of
    [RabbitMQClient]. *)
Lemma encodable_messages JSON_stringify queue message options s :
  (∀ m, encode m = inr (Buffer_from (JSON_stringify m))) →
  publish queue message options s =
    RabbitMQClient.publish rejects Message JSON_stringify queue message
      options s ∧
  sendToQueue queue message options s =
    RabbitMQClient.sendToQueue rejects Message JSON_stringify queue message
      options s.
Proof.
  intros H. destruct (channel (this s)) as [ch|] eqn:Hch.
  - rewrite (publish_encodes ch), (sendToQueue_encodes ch) by done.
    rewrite (RabbitMQClientFacts.publish_awaits _ _ _ ch),
      (RabbitMQClientFacts.sendToQueue_awaits _ _ _ ch) by done.
    by rewrite H.
  - unfold RabbitMQClientEncoding.publish, RabbitMQClientEncoding.sendToQueue,
      RabbitMQClient.publish, RabbitMQClient.sendToQueue, bind, get.
    by rewrite Hch.
Qed.

End Facts.


End RabbitMQClientEncodingFacts.

(** ** consume and getConsumerCount *)

Module RabbitMQClientQueueFacts.

Import RabbitMQClient RabbitMQClientQueue.

Section Facts.

Variable answers : list QueueCall → QueueCall → Error + nat.

Local Abbreviation consume := (consume answers).
Local Abbreviation getConsumerCount := (getConsumerCount answers).

Lemma consume_unfold queue callback s ch :
  channel (self s) = Some ch →
  consume queue callback s =
  match answers (made s) (queue_assert ch queue true) with
  | inl e =>
      (Throw e, {| self := self s;
                   made := made s ++ [queue_assert ch queue true] |})
  | inr _ =>
      match answers (made s ++ [queue_assert ch queue true])
              (queue_consume ch queue callback false) with
      | inl e =>
          (Throw e, {| self := self s;
                       made := made s ++ [queue_assert ch queue true;
                                          queue_consume ch queue callback false] |})
      | inr _ =>
          (Ok tt, {| self := self s;
                     made := made s ++ [queue_assert ch queue true;
                                        queue_consume ch queue callback false] |})
      end
  end.
Proof.
  intros Hch. unfold RabbitMQClientQueue.consume, queue_await. rewrite Hch.
  destruct (answers (made s) (queue_assert ch queue true)); [done|].
  cbn [self made].
  destruct (answers (made s ++ [queue_assert ch queue true])
              (queue_consume ch queue callback false));
    by rewrite <- app_assoc.
Qed.

Lemma getConsumerCount_unfold queue s ch :
  channel (self s) = Some ch →
  getConsumerCount queue s =
  (match answers (made s) (queue_assert ch queue true) with
   | inl e => Throw e
   | inr n => Ok n
   end,
   {| self := self s; made := made s ++ [queue_assert ch queue true] |}).
Proof.
  intros Hch. unfold RabbitMQClientQueue.getConsumerCount, queue_await.
  rewrite Hch. by destruct (answers (made s) (queue_assert ch queue true)).
Qed.


End Facts.


End RabbitMQClientQueueFacts.

(** ** More on the connection manager *)

Module RabbitMQConnectionMoreFacts.

Import RabbitMQConnection RabbitMQConnectionMore.

Lemma same_but_log_refl w : same_but_log w w.
Proof. by repeat split. Qed.

Lemma same_but_log_trans w1 w2 w3 :
  same_but_log w1 w2 → same_but_log w2 w3 → same_but_log w1 w3.
Proof.
  intros (?&?&?&?&?&?&?) (?&?&?&?&?&?&?). repeat split; congruence.
Qed.

Lemma same_but_log_add e w : same_but_log w (add_event e w).
Proof. by repeat split. Qed.

Lemma same_but_log_isConnected w w' :
  same_but_log w w' → isConnected w' = isConnected w.
Proof. intros (Hc&_&_&_&_&Hi&_). unfold isConnected. by rewrite Hc, Hi. Qed.

(** Writing to the instance constructed last. *)
Lemma update_last_instance l i f w :
  instances w = l ++ [i] →
  update_instance (length l) f w = set_instances (l ++ [f i]) w.
Proof.
  intros H. unfold update_instance. rewrite H.
  rewrite lookup_app_r, Nat.sub_diag by lia. cbn [lookup list_lookup].
  rewrite insert_app_r_alt, Nat.sub_diag by lia. done.
Qed.

Section Facts.

Variable amqp_connect : Ref → Error + RabbitMQClient.Connection.
Variable createChannel : Ref → Error + RabbitMQClient.Channel.
Variable consume : ConsumerRef → list Event → option Error.

Local Abbreviation step := (step amqp_connect createChannel consume).
Local Abbreviation run := (run amqp_connect createChannel consume).
Local Abbreviation step_task := (step_task amqp_connect createChannel consume).
Local Abbreviation run_task := (run_task amqp_connect createChannel consume).
Local Abbreviation client_connect_result :=
  (client_connect_result amqp_connect createChannel).

Lemma startConsumers_loop_frame cs w :
  same_but_log w (startConsumers_loop cs w).1.
Proof. destruct cs; [apply same_but_log_refl | apply same_but_log_add]. Qed.

(** Past its loop an invocation only adds events. *)
Lemma past_loop_step_frame w p :
  past_loop p = true → same_but_log w (step w p).1.
Proof.
  destruct p; try done; intros _; unfold RabbitMQConnection.step.
  destruct (consume current (log w));
    (eapply same_but_log_trans;
     [apply same_but_log_add | apply startConsumers_loop_frame]).
Qed.

Lemma past_loop_step_past w p :
  past_loop p = true → past_loop (step w p).2 = true.
Proof.
  destruct p; try done; intros _; unfold RabbitMQConnection.step.
  destruct (consume current (log w));
    apply RabbitMQConnectionFacts.startConsumers_loop_past.
Qed.

Lemma past_loop_run_frame n w p :
  past_loop p = true → same_but_log w (run n w p).1.
Proof.
  revert w p. induction n as [|n IH]; intros w p Hp;
    [apply same_but_log_refl|].
  rewrite RabbitMQConnectionFacts.run_S.
  eapply same_but_log_trans; [by apply past_loop_step_frame|].
  by apply IH, past_loop_step_past.
Qed.

(** From the point where the channel of the instance constructed last is
    awaited, when the broker opens it: the invocation runs to its return. *)
Lemma createChannel_resolves w2 l url retry ch :
  instances w2 = l ++ [RabbitMQClient.new url] →
  rabbitMQClient w2 = Some (length l) →
  createChannel (length l) = inr ch →
  ∃ n w',
    run n w2 (at_createChannel (length l) url retry) = (w', returned) ∧
    rabbitMQClient w' = Some (length l) ∧
    instances w' = l ++ [connected_instance url ch] ∧
    isConnecting w' = false ∧
    isReconnecting w' = isReconnecting w2 ∧
    consumers w' = consumers w2 ∧
    connectionUrl w' = connectionUrl w2 ∧
    connection w' = connection w2 ∧
    consume_calls (log w') = consume_calls (log w2) ++ consumers w2 ∧
    constructions (log w') = constructions (log w2).
Proof.
  intros Hi Hr Hch.
  pose (w3 := set_instances
                (l ++ [RabbitMQClient.connect_channel_created ch
                         (RabbitMQClient.new url)]) w2).
  pose (w4 := set_instances (l ++ [connected_instance url ch]) w3).
  pose (w5 := set_isConnecting false w4).
  assert (H1 : step w2 (at_createChannel (length l) url retry)
               = (w3, at_connect_settled (Ok tt) url retry)).
  { unfold RabbitMQConnection.step. rewrite Hch.
    by rewrite (update_last_instance l (RabbitMQClient.new url)). }
  assert (H2 : step w3 (at_connect_settled (Ok tt) url retry)
               = startConsumers_loop (consumers w2) w5).
  { unfold RabbitMQConnection.step.
    change (rabbitMQClient w3) with (rabbitMQClient w2). rewrite Hr.
    rewrite (update_last_instance l
               (RabbitMQClient.connect_channel_created ch
                  (RabbitMQClient.new url))) by done.
    by rewrite RabbitMQConnectionFacts.after_loop_startConsumers_loop. }
  destruct (RabbitMQConnectionFacts.startConsumers_loop_runs amqp_connect
              createChannel consume (consumers w2) w5) as (w' & Hrun & Hcalls).
  exists (2 + length (consumers w2))%nat, w'.
  assert (Hframe : same_but_log w5 w').
  { eapply same_but_log_trans; [apply (startConsumers_loop_frame (consumers w2))|].
    pose proof (past_loop_run_frame (length (consumers w2))
                  (startConsumers_loop (consumers w2) w5).1
                  (startConsumers_loop (consumers w2) w5).2) as H.
    rewrite Hrun in H. apply H.
    apply RabbitMQConnectionFacts.startConsumers_loop_past. }
  destruct Hframe as (F1 & F2 & F3 & F4 & F5 & F6 & F7).
  split.
  { cbn [Nat.add]. rewrite (RabbitMQConnectionFacts.run_step _ _ _ _ _ _ _ _ H1).
    rewrite RabbitMQConnectionFacts.run_S, H2. exact Hrun. }
  split; [rewrite F1; exact Hr|].
  split; [by rewrite F6|]. split; [by rewrite F4|]. split; [by rewrite F5|].
  split; [by rewrite F3|]. split; [by rewrite F2|]. split; [by rewrite F7|].
  split; [exact Hcalls|].
  pose proof (RabbitMQConnectionFacts.succeeding_run amqp_connect createChannel
                consume 0%nat (length (consumers w2))
                (startConsumers_loop (consumers w2) w5).1
                (startConsumers_loop (consumers w2) w5).2) as Hc.
  rewrite Hrun in Hc. cbn [fst] in Hc. rewrite Hc.
  - by rewrite RabbitMQConnectionFacts.constructions_startConsumers_loop.
  - by destruct (consumers w2).
Qed.

Lemma constructions_construct url w :
  constructions (log (construct url w)) = S (constructions (log w)) ∧
  consume_calls (log (construct url w)) = consume_calls (log w).
Proof.
  unfold construct. split.
  - rewrite !RabbitMQConnectionFacts.constructions_add.
    cbn [log set_rabbitMQClient set_instances]. lia.
  - rewrite !RabbitMQConnectionFacts.consume_calls_add.
    cbn [log set_rabbitMQClient set_instances].
    by rewrite !app_nil_r.
Qed.

(** An attempt that the broker lets succeed runs to the return of
    [connect]. *)
Lemma attempt_succeeds url retry w :
  client_connect_result w (length (instances w)) = Ok tt →
  ∃ n w' ch,
    run n (attempt url retry w).1 (attempt url retry w).2 = (w', returned) ∧
    createChannel (length (instances w)) = inr ch ∧
    rabbitMQClient w' = Some (length (instances w)) ∧
    instances w' = instances w ++ [connected_instance url ch] ∧
    isConnecting w' = false ∧
    isReconnecting w' = isReconnecting w ∧
    consumers w' = consumers w ∧
    connectionUrl w' = connectionUrl w ∧
    connection w' =
      match connection w with
      | Some x => Some x
      | None =>
          match amqp_connect (length (instances w)) with
          | inr c => Some (c, length (instances w))
          | inl _ => None
          end
      end ∧
    consume_calls (log w') = consume_calls (log w) ++ consumers w ∧
    constructions (log w') = S (constructions (log w)).
Proof.
  intros Hok. unfold RabbitMQConnection.client_connect_result in Hok.
  destruct (constructions_construct url w) as [Hcs Hcc].
  unfold attempt. cbn [fst snd].
  destruct (connection w) as [x|] eqn:Hconn.
  - destruct (createChannel (length (instances w))) as [|ch] eqn:Hch; [done|].
    destruct (createChannel_resolves (construct url w) (instances w) url retry
                ch eq_refl eq_refl Hch)
      as (n & w' & Hrun & G1 & G2 & G3 & G4 & G5 & G6 & G7 & G8 & G9).
    exists n, w', ch. rewrite G8, G9, Hcs, Hcc.
    do 5 (split; [done|]). split; [exact G4|]. split; [exact G5|].
    split; [exact G6|]. split; [rewrite G7; exact Hconn|]. done.
  - destruct (amqp_connect (length (instances w))) as [|c] eqn:Ham; [done|].
    destruct (createChannel (length (instances w))) as [|ch] eqn:Hch; [done|].
    destruct (createChannel_resolves
                (set_connection (Some (c, length (instances w)))
                   (construct url w))
                (instances w) url retry ch eq_refl eq_refl Hch)
      as (n & w' & Hrun & G1 & G2 & G3 & G4 & G5 & G6 & G7 & G8 & G9).
    exists (S n), w', ch. rewrite G8, G9.
    change (log (set_connection _ (construct url w)))
      with (log (construct url w)).
    rewrite Hcs, Hcc. split.
    { rewrite RabbitMQConnectionFacts.run_S. unfold RabbitMQConnection.step.
      by rewrite Ham. }
    do 4 (split; [done|]). split; [exact G4|]. split; [exact G5|].
    split; [exact G6|]. split; [exact G7|]. done.
Qed.

Lemma connected_instance_live l url ch w :
  rabbitMQClient w = Some (length l) →
  instances w = l ++ [connected_instance url ch] →
  isConnected w = true.
Proof.
  intros Hr Hi. unfold isConnected. rewrite Hr, Hi.
  by rewrite lookup_app_r, Nat.sub_diag by lia.
Qed.

(** A [connect] that makes an attempt which the broker lets succeed, with
    or without retry: it returns with the new client stored and live, the
    url stored, the connecting flag cleared, the connection-lost callback
    registered, one instance constructed and every registered consumer
    started once, in order. *)
Theorem connect_succeeds w url retry :
  isConnecting w = false → isConnected w = false →
  client_connect_result w (length (instances w)) = Ok tt →
  ∃ n w' ch,
    run n w (at_call url retry) = (w', returned) ∧
    isConnected w' = true ∧
    isConnecting w' = false ∧
    connectionUrl w' = url ∧
    rabbitMQClient w' = Some (length (instances w)) ∧
    instances w' = instances w ++ [connected_instance url ch] ∧
    consume_calls (log w') = consume_calls (log w) ++ consumers w ∧
    constructions (log w') = S (constructions (log w)) ∧
    isReconnecting w' = isReconnecting w ∧
    consumers w' = consumers w.
Proof.
  intros Hc Hl Hok.
  destruct (attempt_succeeds url retry
              (set_isConnecting true (set_connectionUrl url w)) Hok)
    as (n & w' & ch & Hrun & _ & G1 & G2 & G3 & G4 & G5 & G6 & _ & G8 & G9).
  exists (S n), w', ch. split.
  { by rewrite RabbitMQConnectionFacts.run_S,
      RabbitMQConnectionFacts.step_call_attempt. }
  split; [by apply (connected_instance_live (instances w) url ch)|].
  by repeat (split; [done|]).
Qed.

(** A refused attempt leads to the next one. *)
Lemma refused_attempt url w e :
  connection w = None →
  amqp_connect (length (instances w)) = inl e →
  run 3 (attempt url true w).1 (attempt url true w).2 =
  attempt url true (set_rabbitMQClient None (construct url w)).
Proof.
  intros Hconn Ham. unfold attempt at 1 2. rewrite Hconn. cbn [fst snd].
  rewrite (RabbitMQConnectionFacts.run_step _ _ _ 2 _ _
             (construct url w) (at_connect_settled (Throw e) url true))
    by (unfold RabbitMQConnection.step; by rewrite Ham).
  rewrite (RabbitMQConnectionFacts.run_step _ _ _ 1 _ _
             (set_rabbitMQClient None (construct url w)) (at_backoff url true))
    by done.
  by rewrite RabbitMQConnectionFacts.run_S.
Qed.

Lemma attempts_until_accepted url k c ch : ∀ w,
  connection w = None →
  (∀ j, (j < k)%nat → ∃ e, amqp_connect (length (instances w) + j)%nat = inl e) →
  amqp_connect (length (instances w) + k)%nat = inr c →
  createChannel (length (instances w) + k)%nat = inr ch →
  ∃ n w' l,
    run n (attempt url true w).1 (attempt url true w).2 = (w', returned) ∧
    rabbitMQClient w' = Some (length (instances w) + k)%nat ∧
    instances w' = l ++ [connected_instance url ch] ∧
    length l = (length (instances w) + k)%nat ∧
    isConnecting w' = false ∧
    connection w' = Some (c, (length (instances w) + k)%nat) ∧
    consume_calls (log w') = consume_calls (log w) ++ consumers w ∧
    constructions (log w') = (constructions (log w) + k + 1)%nat.
Proof.
  induction k as [|k IH]; intros w Hconn Hfail Ham Hch.
  - rewrite Nat.add_0_r in *.
    destruct (attempt_succeeds url true w)
      as (n & w' & ch' & Hrun & Hch' & G1 & G2 & G3 & _ & _ & _ & G7 & G8 & G9).
    { unfold RabbitMQConnection.client_connect_result.
      by rewrite Hconn, Ham, Hch. }
    rewrite Hch in Hch'. injection Hch' as <-.
    rewrite Hconn, Ham in G7.
    exists n, w', (instances w). rewrite G9. repeat (split; [done|]). lia.
  - destruct (Hfail 0%nat ltac:(lia)) as [e He]. rewrite Nat.add_0_r in He.
    pose (w1 := set_rabbitMQClient None (construct url w)).
    assert (Hlen : length (instances w1) = S (length (instances w))).
    { cbn. rewrite length_app. cbn. lia. }
    destruct (IH w1) as (n & w' & l & Hrun & G1 & G2 & G3 & G4 & G5 & G6 & G7).
    + done.
    + intros j Hj. rewrite Hlen.
      replace (S (length (instances w)) + j)%nat
        with (length (instances w) + S j)%nat by lia.
      apply Hfail. lia.
    + rewrite Hlen.
      by replace (S (length (instances w)) + k)%nat
        with (length (instances w) + S k)%nat by lia.
    + rewrite Hlen.
      by replace (S (length (instances w)) + k)%nat
        with (length (instances w) + S k)%nat by lia.
    + rewrite Hlen in *.
      replace (S (length (instances w)) + k)%nat
        with (length (instances w) + S k)%nat in * by lia.
      destruct (constructions_construct url w) as [Hcs Hcc].
      change (log w1) with (log (construct url w)) in *.
      change (consumers w1) with (consumers w) in *.
      exists (3 + n)%nat, w', l.
      rewrite RabbitMQConnectionFacts.run_add, (refused_attempt url w e) by done.
      cbn [fst snd]. fold w1. rewrite Hrun, G6, G7, Hcs, Hcc.
      repeat (split; [done|]). lia.
Qed.

(** [connect] with retry on a broker that refuses the first [k] connections
    and then accepts: it returns connected to the instance of attempt
    [k + 1], having constructed [k + 1] instances and started every
    registered consumer once. *)
Theorem connect_retries_until_accepted w url k c ch :
  isConnecting w = false → isConnected w = false → connection w = None →
  (∀ j, (j < k)%nat → ∃ e, amqp_connect (length (instances w) + j)%nat = inl e) →
  amqp_connect (length (instances w) + k)%nat = inr c →
  createChannel (length (instances w) + k)%nat = inr ch →
  ∃ n w',
    run n w (at_call url true) = (w', returned) ∧
    isConnected w' = true ∧
    isConnecting w' = false ∧
    rabbitMQClient w' = Some (length (instances w) + k)%nat ∧
    connection w' = Some (c, (length (instances w) + k)%nat) ∧
    consume_calls (log w') = consume_calls (log w) ++ consumers w ∧
    constructions (log w') = (constructions (log w) + k + 1)%nat.
Proof.
  intros Hc Hl Hconn Hfail Ham Hch.
  destruct (attempts_until_accepted url k c ch
              (set_isConnecting true (set_connectionUrl url w)))
    as (n & w' & l & Hrun & G1 & G2 & G3 & G4 & G5 & G6 & G7); try done.
  exists (S n), w'. split.
  { by rewrite RabbitMQConnectionFacts.run_S,
      RabbitMQConnectionFacts.step_call_attempt. }
  split.
  { apply (connected_instance_live l url ch); [by rewrite G3|done]. }
  by repeat (split; [done|]).
Qed.

Lemma retrying_step w p : retrying p → retrying (step w p).2.
Proof.
  destruct p; cbn [retrying]; try done; unfold RabbitMQConnection.step.
  - intros ->. destruct (isConnecting w); [done|].
    destruct (isConnected _); [done|]. unfold attempt. cbn [snd].
    by destruct (connection _).
  - by destruct (isConnecting w).
  - intros ->. by destruct (amqp_connect r).
  - intros ->. by destruct (createChannel r).
  - intros ->. destruct result as [[]|e].
    + destruct (rabbitMQClient w); [|done].
      rewrite RabbitMQConnectionFacts.after_loop_startConsumers_loop.
      by destruct (consumers _).
    + done.
  - intros ->. unfold attempt. cbn [snd]. by destruct (connection w).
  - intros _. destruct (consume current (log w)); by destruct rest.
Qed.

(** With [retryOnFail = true], [connect] never throws: whatever the broker
    and the consumers do and however long it runs, it does not end with an
    error. *)
Theorem connect_with_retry_never_throws w url n e :
  (run n w (at_call url true)).2 ≠ thrown e.
Proof.
  assert (H : ∀ n w p, retrying p → retrying (run n w p).2).
  { clear. intros n. induction n as [|n IH]; intros w p Hp; [done|].
    rewrite RabbitMQConnectionFacts.run_S. by apply IH, retrying_step. }
  intros Heq. specialize (H n w (at_call url true) eq_refl).
  by rewrite Heq in H.
Qed.

Lemma refused_step w p :
  (∀ r, ∃ e, amqp_connect r = inl e) →
  connection w = None → isConnecting w = true → refused p →
  connection (step w p).1 = None ∧ isConnecting (step w p).1 = true ∧
  refused (step w p).2.
Proof.
  intros Hdown Hconn Hc.
  destruct p; cbn [refused]; try done; unfold RabbitMQConnection.step.
  - intros ->. destruct (Hdown r) as [e ->]. done.
  - destruct result as [[]|e]; [done|]. intros ->. done.
  - intros ->. unfold attempt. cbn [fst snd]. by rewrite Hconn.
Qed.

Lemma refused_rounds url k : ∀ w,
  (∀ r, ∃ e, amqp_connect r = inl e) →
  connection w = None →
  ∃ wk,
    run (3 * k) (attempt url true w).1 (attempt url true w).2
      = attempt url true wk ∧
    connection wk = None ∧
    constructions (log wk) = (constructions (log w) + k)%nat.
Proof.
  induction k as [|k IH]; intros w Hdown Hconn.
  - exists w. rewrite Nat.add_0_r. done.
  - destruct (Hdown (length (instances w))) as [e He].
    destruct (IH (set_rabbitMQClient None (construct url w)) Hdown Hconn)
      as (wk & Hrun & Hck & Hn).
    exists wk. replace (3 * S k)%nat with (3 + 3 * k)%nat by lia.
    rewrite RabbitMQConnectionFacts.run_add, (refused_attempt url w e) by done.
    split; [exact Hrun|]. split; [done|]. rewrite Hn.
    change (log (set_rabbitMQClient None (construct url w)))
      with (log (construct url w)).
    rewrite (proj1 (constructions_construct url w)). lia.
Qed.

(** [connect] with retry on a broker that refuses every connection never
    completes: at every later point it is still inside its loop with the
    connecting flag set, and it has constructed one more instance every
    three steps (attempt, settlement, backoff). *)
Theorem connect_retries_forever_while_refused w url :
  (∀ r, ∃ e, amqp_connect r = inl e) →
  isConnecting w = false → isConnected w = false → connection w = None →
  (∀ n, in_flight (run (S n) w (at_call url true)).2 = true ∧
        isConnecting (run (S n) w (at_call url true)).1 = true) ∧
  (∀ k, constructions (log (run (1 + 3 * k) w (at_call url true)).1) =
        (constructions (log w) + k + 1)%nat).
Proof.
  intros Hdown Hc Hl Hconn. split.
  - assert (H : ∀ n w p, connection w = None → isConnecting w = true →
                refused p →
                connection (run n w p).1 = None ∧
                isConnecting (run n w p).1 = true ∧ refused (run n w p).2).
    { clear -Hdown. intros n.
      induction n as [|n IH]; intros w p H1 H2 H3; [done|].
      rewrite RabbitMQConnectionFacts.run_S.
      destruct (refused_step w p Hdown H1 H2 H3) as (?&?&?). by apply IH. }
    intros n.
    rewrite RabbitMQConnectionFacts.run_S,
      RabbitMQConnectionFacts.step_call_attempt by done.
    destruct (H n (attempt url true
                     (set_isConnecting true (set_connectionUrl url w))).1
                (attempt url true
                   (set_isConnecting true (set_connectionUrl url w))).2)
      as (_ & H2 & H3).
    + done.
    + done.
    + unfold attempt. cbn [snd connection set_isConnecting set_connectionUrl].
      by rewrite Hconn.
    + split; [|done].
      by destruct (run n _ _).2 as [| | | |[]| | | |].
  - intros k.
    change (1 + 3 * k)%nat with (S (3 * k)).
    rewrite RabbitMQConnectionFacts.run_S,
      RabbitMQConnectionFacts.step_call_attempt by done.
    destruct (refused_rounds url k
                (set_isConnecting true (set_connectionUrl url w)) Hdown Hconn)
      as (wk & -> & _ & Hn).
    unfold attempt. cbn [fst].
    rewrite (proj1 (constructions_construct url wk)), Hn.
    cbn [log set_isConnecting set_connectionUrl]. lia.
Qed.

(** [handleConnectionLost] ends when the [connect] it awaits ends, and
    clears the reconnecting flag whether that [connect] returned or
    threw. *)
Lemma lost_awaiting_ends n : ∀ w p w' p',
  run n w p = (w', p') → p' = returned ∨ (∃ e, p' = thrown e) →
  ∃ m, run_task m w (lost_awaiting p) =
       (set_isReconnecting false w', lost_returned).
Proof.
  induction n as [|n IH]; intros w p w' p' Hrun Hend.
  - injection Hrun as -> ->. exists 1%nat.
    destruct Hend as [->|[e ->]]; done.
  - destruct p; try (rewrite RabbitMQConnectionFacts.run_S in Hrun;
                     destruct (IH _ _ _ _ Hrun Hend) as [m Hm];
                     exists (S m); cbn [RabbitMQConnection.run_task];
                     unfold RabbitMQConnection.step_task;
                     by destruct (step _ _)).
    + rewrite RabbitMQConnectionFacts.run_returned in Hrun.
      injection Hrun as <- <-. by exists 1%nat.
    + rewrite RabbitMQConnectionFacts.run_thrown in Hrun.
      injection Hrun as <- <-. by exists 1%nat.
Qed.

(** [handleConnectionLost]: a loss signal that arrives while a reconnection
    is under way is dropped; otherwise, when no connect is in flight and the
    broker lets the attempt succeed, it runs to its end with the manager
    connected to a new instance, every registered consumer started once more,
    in order, and the reconnecting flag cleared. *)
Theorem handleConnectionLost_reconnects w :
  (isReconnecting w = true → step_task w lost_call = (w, lost_returned)) ∧
  (isReconnecting w = false → isConnecting w = false →
   client_connect_result w (length (instances w)) = Ok tt →
   ∃ n w',
     run_task n w lost_call = (w', lost_returned) ∧
     isReconnecting w' = false ∧
     isConnecting w' = false ∧
     isConnected w' = true ∧
     rabbitMQClient w' = Some (length (instances w)) ∧
     connectionUrl w' = connectionUrl w ∧
     consume_calls (log w') = consume_calls (log w) ++ consumers w ∧
     constructions (log w') = S (constructions (log w))).
Proof.
  split.
  { intros H. unfold RabbitMQConnection.step_task. by rewrite H. }
  intros Hr Hc Hok.
  pose (w0 := set_rabbitMQClient None (set_isReconnecting true w)).
  destruct (connect_succeeds w0 (connectionUrl w) true)
    as (n & w' & ch & Hrun & G1 & G2 & G3 & G4 & G5 & G6 & G7 & G8 & G9);
    try done.
  destruct n as [|n]; [done|].
  rewrite RabbitMQConnectionFacts.run_S in Hrun.
  destruct (lost_awaiting_ends n _ _ _ _ Hrun) as [m Hm]; [by left|].
  exists (S m), (set_isReconnecting false w'). split.
  { cbn [RabbitMQConnection.run_task]. unfold RabbitMQConnection.step_task.
    rewrite Hr. fold w0.
    change (connectionUrl w0) with (connectionUrl w).
    by destruct (step w0 (at_call (connectionUrl w) true)). }
  by repeat (split; [done|]).
Qed.

(** A connection whose first channel could not be opened keeps the close
    handler of the instance that opened it, which [connect] has discarded
    and which has no connection-lost callback: when the retry succeeds on a
    second instance and the connection later closes, the callback is not
    invoked, so that no reconnection starts. *)
Theorem discarded_instance_owns_close_handler w url c e ch :
  isConnecting w = false → isConnected w = false → connection w = None →
  amqp_connect (length (instances w)) = inr c →
  createChannel (length (instances w)) = inl e →
  createChannel (S (length (instances w))) = inr ch →
  ∃ n w',
    run n w (at_call url true) = (w', returned) ∧
    isConnected w' = true ∧
    rabbitMQClient w' = Some (S (length (instances w))) ∧
    connection w' = Some (c, length (instances w)) ∧
    (connection_closed w').2 = false ∧
    rabbitMQClient (connection_closed w').1 = Some (S (length (instances w))).
Proof.
  intros Hc Hl Hconn Ham Hch1 Hch2.
  set (r := length (instances w)) in *.
  pose (w1 := construct url (set_isConnecting true (set_connectionUrl url w))).
  pose (w2 := set_connection (Some (c, r)) w1).
  pose (w3 := set_rabbitMQClient None w2).
  assert (Hlen : length (instances w3) = S r).
  { cbn. rewrite length_app. cbn. lia. }
  destruct (attempt_succeeds url true w3)
    as (n & w' & ch' & Hrun & Hch' & G1 & G2 & G3 & _ & _ & _ & G7 & _).
  { unfold RabbitMQConnection.client_connect_result.
    rewrite Hlen. cbn [connection w3 w2 set_rabbitMQClient set_connection].
    by rewrite Hch2. }
  rewrite Hlen in *. rewrite Hch2 in Hch'.
  injection Hch' as <-.
  change (connection w3) with (Some (c, r)) in G7.
  change (instances w3) with (instances w ++ [RabbitMQClient.new url]) in G2.
  exists (5 + n)%nat, w'. split.
  { rewrite RabbitMQConnectionFacts.run_add.
    rewrite (RabbitMQConnectionFacts.run_step _ _ _ 4 _ _ w1
               (at_amqp_connect r url true)).
    2:{ rewrite RabbitMQConnectionFacts.step_call_attempt by done.
        unfold attempt.
        cbn [connection set_isConnecting set_connectionUrl instances].
        by rewrite Hconn. }
    rewrite (RabbitMQConnectionFacts.run_step _ _ _ 3 _ _ w2
               (at_createChannel r url true))
      by (unfold RabbitMQConnection.step; by rewrite Ham).
    rewrite (RabbitMQConnectionFacts.run_step _ _ _ 2 _ _ w2
               (at_connect_settled (Throw e) url true))
      by (unfold RabbitMQConnection.step; by rewrite Hch1).
    rewrite (RabbitMQConnectionFacts.run_step _ _ _ 1 _ _ w3
               (at_backoff url true)) by done.
    rewrite RabbitMQConnectionFacts.run_S.
    cbn [RabbitMQConnection.run fst snd].
    exact Hrun. }
  split.
  { apply (connected_instance_live
             (instances w ++ [RabbitMQClient.new url]) url ch);
      [rewrite G1, length_app; cbn; f_equal; lia | done]. }
  split; [done|]. split; [done|].
  unfold connection_closed. rewrite G7.
  assert (Hold : instances w' !! r = Some (RabbitMQClient.new url)).
  { rewrite G2, lookup_app_l by (rewrite length_app; cbn; lia).
    by rewrite lookup_app_r, Nat.sub_diag by lia. }
  unfold Ref in *. rewrite Hold. cbn [fst snd]. split; [done|].
  unfold set_connection. cbn [rabbitMQClient].
  by rewrite RabbitMQConnectionFacts.rabbitMQClient_update_instance.
Qed.

(** After a [connect] that opened the connection itself, the close event
    of the connection makes [isConnected()] false at once, clears the
    class-level connection and invokes the connection-lost callback; the
    manager still holds the reference to the dead client. *)
Theorem connection_loss_is_noticed w url retry c ch :
  isConnecting w = false → isConnected w = false → connection w = None →
  amqp_connect (length (instances w)) = inr c →
  createChannel (length (instances w)) = inr ch →
  ∃ n w',
    run n w (at_call url retry) = (w', returned) ∧
    isConnected w' = true ∧
    (connection_closed w').2 = true ∧
    isConnected (connection_closed w').1 = false ∧
    connection (connection_closed w').1 = None ∧
    rabbitMQClient (connection_closed w').1 = Some (length (instances w)).
Proof.
  intros Hc Hl Hconn Ham Hch.
  destruct (attempt_succeeds url retry
              (set_isConnecting true (set_connectionUrl url w)))
    as (n & w' & ch' & Hrun & Hch' & G1 & G2 & _ & _ & _ & _ & G7 & _).
  { unfold RabbitMQConnection.client_connect_result.
    cbn [connection set_isConnecting set_connectionUrl instances].
    by rewrite Hconn, Ham, Hch. }
  cbn [connection set_isConnecting set_connectionUrl instances] in *.
  rewrite Hch in Hch'. injection Hch' as <-. rewrite Hconn, Ham in G7.
  exists (S n), w'. split.
  { by rewrite RabbitMQConnectionFacts.run_S,
      RabbitMQConnectionFacts.step_call_attempt. }
  split; [by apply (connected_instance_live (instances w) url ch)|].
  unfold connection_closed. rewrite G7.
  assert (Hlast : instances w' !! length (instances w)
                  = Some (connected_instance url ch)).
  { by rewrite G2, lookup_app_r, Nat.sub_diag by lia. }
  unfold Ref in *. rewrite Hlast. cbn [fst snd].
  rewrite (update_last_instance (instances w) (connected_instance url ch))
    by done.
  split; [done|]. split; [|split; [done|exact G1]].
  unfold isConnected.
  cbn [rabbitMQClient instances set_connection set_instances]. rewrite G1.
  by rewrite lookup_app_r, Nat.sub_diag by lia.
Qed.

Lemma update_instance_at r f w i :
  instances w !! r = Some i →
  update_instance r f w = set_instances (<[r := f i]> (instances w)) w.
Proof. intros H. unfold update_instance. by rewrite H. Qed.

Lemma close_connection_reconnects rejects r w calls i c :
  instances w !! r = Some i →
  RabbitMQClient.connectionLostCallback i ≠ None →
  connection w = Some (c, r) →
  isConnecting w = false → isReconnecting w = false →
  rejects calls (RabbitMQClient.connection_close c) = None →
  ∃ w' l,
    close_connection rejects amqp_connect createChannel consume r w calls =
    (Ok tt, w', calls ++ [RabbitMQClient.connection_close c],
     Some (lost_awaiting
             (at_amqp_connect (length (instances w)) (connectionUrl w) true))) ∧
    rabbitMQClient w' = None ∧
    connection w' = None ∧
    isReconnecting w' = true ∧
    isConnecting w' = true ∧
    consumers w' = consumers w ∧
    connectionUrl w' = connectionUrl w ∧
    instances w' = l ++ [RabbitMQClient.new (connectionUrl w)] ∧
    length l = length (instances w) ∧
    consume_calls (log w') = consume_calls (log w) ∧
    constructions (log w') = S (constructions (log w)).
Proof.
  intros Hi Hcb Hconn Hc Hre Hrej.
  assert (Hlt : (r < length (instances w))%nat) by (by eapply lookup_lt_Some).
  unfold close_connection. rewrite Hconn, Hrej.
  unfold connection_closed. rewrite Hconn, Hi.
  rewrite bool_decide_eq_true_2 by done. cbv beta iota.
  unfold connectionLostCallback_invoked, RabbitMQConnection.step_task.
  rewrite (update_instance_at r _ w i Hi).
  cbn [isReconnecting set_connection set_instances]. rewrite Hre.
  rewrite RabbitMQConnectionFacts.step_call_attempt by done.
  unfold attempt.
  cbn [connection set_isConnecting set_connectionUrl set_rabbitMQClient
       set_isReconnecting set_connection set_instances instances connectionUrl].
  cbv beta iota. rewrite length_insert.
  rewrite (update_instance_at r disconnected _
             (RabbitMQClient.on_connection_closed i)).
  2:{ unfold construct.
      cbn [instances set_connection add_event set_rabbitMQClient set_instances
           set_isConnecting set_connectionUrl set_isReconnecting].
      rewrite lookup_app_l by (by rewrite length_insert).
      by apply list_lookup_insert_eq. }
  eexists _, (<[r := disconnected (RabbitMQClient.on_connection_closed i)]>
                (<[r := RabbitMQClient.on_connection_closed i]> (instances w))).
  split; [reflexivity|].
  do 6 (split; [done|]).
  split.
  { unfold construct.
    cbn [instances set_connection add_event set_rabbitMQClient set_instances
         set_isConnecting set_connectionUrl set_isReconnecting].
    by rewrite insert_app_l by (by rewrite length_insert). }
  split; [by rewrite !length_insert|].
  unfold construct.
  cbn [log set_connection set_rabbitMQClient set_instances].
  rewrite !RabbitMQConnectionFacts.consume_calls_add,
    !RabbitMQConnectionFacts.constructions_add.
  cbn [log set_connection set_rabbitMQClient set_instances
       set_isConnecting set_connectionUrl set_isReconnecting].
  rewrite !app_nil_r. split; [done|lia].
Qed.

(** From the first [await] of a reconnection that has lost its place in
    the static field: the connection opens, the channel opens, registering
    the callback fails on the [null] field, and the retry connects a further
    instance on the connection that is now there. *)
Lemma displaced_attempt_reconnects w l url c' ch1 ch2 :
  rabbitMQClient w = None → connection w = None →
  instances w = l ++ [RabbitMQClient.new url] →
  amqp_connect (length l) = inr c' →
  createChannel (length l) = inr ch1 →
  createChannel (S (length l)) = inr ch2 →
  ∃ n w2,
    run n w (at_amqp_connect (length l) url true) = (w2, returned) ∧
    isConnected w2 = true ∧
    rabbitMQClient w2 = Some (S (length l)) ∧
    connection w2 = Some (c', length l) ∧
    isConnecting w2 = false ∧
    isReconnecting w2 = isReconnecting w ∧
    consume_calls (log w2) = consume_calls (log w) ++ consumers w ∧
    constructions (log w2) = S (constructions (log w)).
Proof.
  intros Hr Hconn Hi Ham Hch1 Hch2.
  pose (wa := set_connection (Some (c', length l)) w).
  pose (wb := set_instances
                (l ++ [RabbitMQClient.connect_channel_created ch1
                         (RabbitMQClient.new url)]) wa).
  pose (wc := set_rabbitMQClient None wb).
  assert (Hlen : length (instances wc) = S (length l)).
  { cbn. rewrite length_app. cbn. lia. }
  destruct (attempt_succeeds url true wc)
    as (n & w2 & ch' & Hrun & Hch' & G1 & G2 & G3 & G4 & G5 & _ & G7 & G8 & G9).
  { unfold RabbitMQConnection.client_connect_result. rewrite Hlen.
    cbn [connection wc wb wa set_rabbitMQClient set_instances set_connection].
    by rewrite Hch2. }
  rewrite Hlen in *. rewrite Hch2 in Hch'. injection Hch' as <-.
  exists (4 + n)%nat, w2. split.
  { rewrite (RabbitMQConnectionFacts.run_step _ _ _ (3 + n) _ _ wa
               (at_createChannel (length l) url true))
      by (unfold RabbitMQConnection.step; by rewrite Ham).
    rewrite (RabbitMQConnectionFacts.run_step _ _ _ (2 + n) _ _ wb
               (at_connect_settled (Ok tt) url true)).
    2:{ unfold RabbitMQConnection.step. rewrite Hch1.
        by rewrite (update_last_instance l (RabbitMQClient.new url)). }
    rewrite (RabbitMQConnectionFacts.run_step _ _ _ (1 + n) _ _ wc
               (at_backoff url true)).
    2:{ unfold RabbitMQConnection.step.
        change (rabbitMQClient wb) with (rabbitMQClient w). by rewrite Hr. }
    rewrite RabbitMQConnectionFacts.run_S.
    cbn [RabbitMQConnection.step]. exact Hrun. }
  split.
  { apply (connected_instance_live (instances wc) url ch2);
      [by rewrite G1, Hlen | done]. }
  split; [done|]. split; [done|]. split; [done|]. split; [done|].
  split; [done|]. by rewrite G9.
Qed.

(** [static close()] does not end the automatic reconnection.  Without a
    client it throws and changes nothing; when closing the channel fails,
    the error is passed on and nothing changes either.  On a connected
    manager whose client opened the connection, with a transport that
    accepts the calls, it closes the channel and the connection and
    returns with the reference cleared, so that [isConnected()] is false
    and [getClient()] throws; but the "close" event of the connection has
    run [handleConnectionLost] by then: the reconnecting and connecting
    flags are set, a new instance is constructed and its connection
    awaited, and [close()] has cleared the reference to it.  When the
    broker answers, that reconnection goes on to its end: registering the
    callback fails on the cleared reference, the retry constructs a further
    instance, and the manager is connected again, every registered consumer
    started once more. *)
Theorem close_starts_reconnection rejects w calls :
  (rabbitMQClient w = None →
   close rejects amqp_connect createChannel consume w calls =
   (Throw (new_Error
      "RabbitMQ client not initialized. Call connect before accessing the client."),
    w, calls, None)) ∧
  (∀ r i ch e,
     rabbitMQClient w = Some r → instances w !! r = Some i →
     RabbitMQClient.channel i = Some ch →
     rejects calls (RabbitMQClient.channel_close ch) = Some e →
     close rejects amqp_connect createChannel consume w calls =
     (Throw e, w, calls ++ [RabbitMQClient.channel_close ch], None)) ∧
  (∀ r i ch c,
     rabbitMQClient w = Some r → instances w !! r = Some i →
     RabbitMQClient.channel i = Some ch →
     RabbitMQClient.connectionLostCallback i =
       Some handleConnectionLost_callback →
     connection w = Some (c, r) →
     isConnecting w = false → isReconnecting w = false →
     (∀ h c, rejects h c = None) →
     ∃ w',
       close rejects amqp_connect createChannel consume w calls =
       (Ok tt, w',
        calls ++ [RabbitMQClient.channel_close ch;
                  RabbitMQClient.connection_close c],
        Some (lost_awaiting
                (at_amqp_connect (length (instances w)) (connectionUrl w)
                   true))) ∧
       rabbitMQClient w' = None ∧
       isConnected w' = false ∧
       getClient w' =
         Throw (new_Error
           "RabbitMQ client not initialized. Call connect before accessing the client.") ∧
       connection w' = None ∧
       isReconnecting w' = true ∧
       isConnecting w' = true ∧
       consumers w' = consumers w ∧
       connectionUrl w' = connectionUrl w ∧
       constructions (log w') = S (constructions (log w)) ∧
       ∀ c' ch1 ch2,
         amqp_connect (length (instances w)) = inr c' →
         createChannel (length (instances w)) = inr ch1 →
         createChannel (S (length (instances w))) = inr ch2 →
         ∃ n w2,
           run_task n w'
             (lost_awaiting
                (at_amqp_connect (length (instances w)) (connectionUrl w)
                   true)) = (w2, lost_returned) ∧
           isConnected w2 = true ∧
           rabbitMQClient w2 = Some (S (length (instances w))) ∧
           connection w2 = Some (c', length (instances w)) ∧
           isReconnecting w2 = false ∧
           isConnecting w2 = false ∧
           consume_calls (log w2) = consume_calls (log w) ++ consumers w ∧
           constructions (log w2) = S (S (constructions (log w)))).
Proof.
  split; [|split].
  - intros H. unfold close. by rewrite H.
  - intros r i ch e Hr Hi Hch Hrej. unfold close.
    rewrite Hr, Hi. cbn [mbind option_bind]. by rewrite Hch, Hrej.
  - intros r i ch c Hr Hi Hch Hcb Hconn Hc Hre Hacc.
    assert (Hlt : (r < length (instances w))%nat) by (by eapply lookup_lt_Some).
    unfold close. rewrite Hr, Hi. cbn [mbind option_bind]. rewrite Hch, Hacc.
    rewrite (update_instance_at r _ w i Hi).
    destruct (close_connection_reconnects rejects r
                (set_instances (<[r := channel_dropped i]> (instances w)) w)
                (calls ++ [RabbitMQClient.channel_close ch])
                (channel_dropped i) c)
      as (w' & l & Hclose & G1 & G2 & G3 & G4 & G5 & G6 & G7 & G8 & G9 & G10).
    { by apply list_lookup_insert_eq. }
    { cbn. by rewrite Hcb. }
    { done. }
    { done. }
    { done. }
    { apply Hacc. }
    cbn [instances connectionUrl consumers log set_instances] in *.
    rewrite length_insert in *.
    exists w'. split; [by rewrite Hclose, <- app_assoc|].
    split; [done|]. split; [unfold isConnected; by rewrite G1|].
    split; [unfold getClient; by rewrite G1|].
    do 6 (split; [done|]).
    intros c' ch1 ch2 Ham Hch1 Hch2. rewrite <- G8 in *.
    destruct (displaced_attempt_reconnects w' l (connectionUrl w) c' ch1 ch2)
      as (n & w2 & Hrun & F1 & F2 & F3 & F4 & F5 & F6 & F7); try done.
    destruct (lost_awaiting_ends n _ _ _ _ Hrun) as [m Hm]; [by left|].
    exists m, (set_isReconnecting false w2).
    split; [exact Hm|]. split; [exact F1|]. split; [exact F2|].
    split; [exact F3|]. split; [done|]. split; [exact F4|].
    cbn [log set_isReconnecting].
    split; [by rewrite F6, G9, G5|].
    by rewrite F7, G10.
Qed.

End Facts.

(** [connect] on an idle manager and a broker that is up. *)
Lemma connect_succeeds_witness :
  ∃ n w',
    run amqp_up channel_up consume_ok n idle (at_call "amqp://a" false)
      = (w', returned) ∧
    isConnected w' = true ∧ connectionUrl w' = "amqp://a".
Proof.
  destruct (connect_succeeds amqp_up channel_up consume_ok idle "amqp://a"
              false eq_refl eq_refl eq_refl)
    as (n & w' & ch & H1 & H2 & _ & H3 & _).
  by exists n, w'.
Defined.

(** The broker refuses the first connection and accepts the second. *)
Lemma connect_retries_until_accepted_witness :
  ∃ n w',
    run amqp_up_later channel_up consume_ok n idle (at_call "amqp://a" true)
      = (w', returned) ∧
    isConnected w' = true ∧ rabbitMQClient w' = Some 1%nat ∧
    constructions (log w') = 2%nat.
Proof.
  destruct (connect_retries_until_accepted amqp_up_later channel_up consume_ok
              idle "amqp://a" 1 101%nat 201%nat eq_refl eq_refl eq_refl)
    as (n & w' & H1 & H2 & _ & H3 & _ & _ & H4).
  - intros j Hj. exists ECONNREFUSED. by destruct j; [|lia].
  - reflexivity.
  - reflexivity.
  - by exists n, w'.
Defined.

(** The broker is down. *)
Lemma connect_retries_forever_while_refused_witness :
  in_flight (run amqp_down channel_up consume_ok 100 idle
               (at_call "amqp://a" true)).2 = true.
Proof.
  apply (connect_retries_forever_while_refused amqp_down channel_up consume_ok
           idle "amqp://a"); try reflexivity.
  intros r. by exists ECONNREFUSED.
Defined.

(** The connection of [live] closes and [handleConnectionLost] runs. *)
Lemma handleConnectionLost_reconnects_witness :
  ∃ n w',
    run_task amqp_up channel_up consume_ok n (connection_closed live).1
      lost_call = (w', lost_returned) ∧
    isConnected w' = true ∧
    consume_calls (log w') = [10; 11]%nat.
Proof.
  destruct (proj2 (handleConnectionLost_reconnects amqp_up channel_up
                     consume_ok (connection_closed live).1)
              eq_refl eq_refl eq_refl)
    as (n & w' & H1 & _ & _ & H2 & _ & _ & H3 & _).
  by exists n, w'.
Defined.

(** The broker connects, refuses the first channel and opens the second. *)
Lemma discarded_instance_owns_close_handler_witness :
  ∃ n w',
    run amqp_up channel_up_later consume_ok n idle (at_call "amqp://a" true)
      = (w', returned) ∧
    isConnected w' = true ∧ (connection_closed w').2 = false.
Proof.
  destruct (discarded_instance_owns_close_handler amqp_up channel_up_later
              consume_ok idle "amqp://a" 100%nat
              (new_Error "Channel limit reached") 201%nat
              eq_refl eq_refl eq_refl eq_refl eq_refl eq_refl)
    as (n & w' & H1 & H2 & _ & _ & H3 & _).
  by exists n, w'.
Defined.

(** The broker is up and the connection closes after [connect]. *)
Lemma connection_loss_is_noticed_witness :
  ∃ n w',
    run amqp_up channel_up consume_ok n idle (at_call "amqp://a" true)
      = (w', returned) ∧
    (connection_closed w').2 = true ∧
    isConnected (connection_closed w').1 = false.
Proof.
  destruct (connection_loss_is_noticed amqp_up channel_up consume_ok idle
              "amqp://a" true 100%nat 200%nat
              eq_refl eq_refl eq_refl eq_refl eq_refl)
    as (n & w' & H1 & _ & H2 & H3 & _).
  by exists n, w'.
Defined.

(** Closing the manager [live], on a broker that is up. *)
Lemma close_starts_reconnection_witness :
  ∃ w' task n w2,
    close RabbitMQClient.accepting amqp_up channel_up consume_ok live [] =
      (Ok tt, w',
       [RabbitMQClient.channel_close 1%nat;
        RabbitMQClient.connection_close 5%nat],
       Some task) ∧
    isConnected w' = false ∧
    run_task amqp_up channel_up consume_ok n w' task = (w2, lost_returned) ∧
    isConnected w2 = true ∧
    getClient w2 = Ok 2%nat ∧
    consume_calls (log w2) = [10; 11]%nat.
Proof.
  destruct (proj2 (proj2 (close_starts_reconnection amqp_up channel_up
                            consume_ok RabbitMQClient.accepting live []))
              0%nat _ 1%nat 5%nat eq_refl eq_refl eq_refl eq_refl eq_refl
              eq_refl eq_refl (λ _ _, eq_refl))
    as (w' & Hclose & _ & Hdown & _ & _ & _ & _ & _ & _ & _ & Hgoes_on).
  destruct (Hgoes_on 101%nat 201%nat 202%nat eq_refl eq_refl eq_refl)
    as (n & w2 & Hrun & Hup & Hclient & _ & _ & _ & Hconsumers & _).
  exists w', (lost_awaiting (at_amqp_connect 1%nat "amqp://a" true)), n, w2.
  split; [exact Hclose|]. split; [exact Hdown|]. split; [exact Hrun|].
  split; [exact Hup|]. split; [|exact Hconsumers].
  unfold getClient. by rewrite Hclient.
Defined.

End RabbitMQConnectionMoreFacts.

(** ** More on the publisher *)

Module PublisherMoreFacts.

Import Publisher.

(** An access to [rabbitMQClient] made before the manager has a client
    throws the error of [getClient] and caches nothing, so that an access
    made once a client exists returns that client. *)
Theorem access_before_connect_caches_nothing p w :
  _rabbitMQClient p = None →
  RabbitMQConnection.rabbitMQClient w = None →
  rabbitMQClient w p =
    (Throw (new_Error
       "RabbitMQ client not initialized. Call connect before accessing the client."),
     p) ∧
  ∀ w' r, RabbitMQConnection.rabbitMQClient w' = Some r →
          (rabbitMQClient w' (rabbitMQClient w p).2).1 = Ok r.
Proof.
  intros Hp Hw. unfold rabbitMQClient, RabbitMQConnection.getClient.
  rewrite Hp, Hw. cbn [snd]. split; [done|].
  intros w' r ->. by rewrite Hp.
Qed.

(** A publisher created and used before [connect], then used after it. *)
Lemma access_before_connect_caches_nothing_witness :
  (rabbitMQClient RabbitMQConnection.live
     (rabbitMQClient RabbitMQConnection.idle
        (new "orders" RabbitMQClient.no_options)).2).1 = Ok 0%nat.
Proof.
  by apply (access_before_connect_caches_nothing
              (new "orders" RabbitMQClient.no_options) RabbitMQConnection.idle).
Defined.

End PublisherMoreFacts.
